(** * propertyestimator: calculation layers and workflow protocols

    A shallow embedding of
    - [propertyestimator/layers/layers.py]: the registry of calculation
      layers and the aggregation of layer results into a server request;
    - [propertyestimator/workflow/protocols.py]: the [BaseProtocol] node
      (value access, merging, uuid tagging).

    Python objects that are mutated in place are modelled by explicit state
    passing: a function that mutates [self] returns the new [self], together
    with the exception it raised, if any. *)

From stdpp Require Import gmap strings list fin_maps.
From Stdlib Require Import ZArith.

Local Open Scope string_scope.
Local Open Scope list_scope.

(** ** Python preliminaries *)

(** The exceptions that the modelled code raises itself ([ValueError]), that
    attribute access raises ([AttributeError]), that comparisons raise
    ([TypeError]), and those which come out of a collaborator (file access,
    JSON decoding, the calculation backend).  All of them derive from
    Python's [Exception]. *)
Inductive PyExn :=
  | ValueError (msg : string)
  | AttributeError (msg : string)
  | TypeError (msg : string)
  | CollaboratorError (msg : string).

(** The outcome of a call: a returned value or a raised exception. *)
Inductive result (A : Type) :=
  | Ok (a : A)
  | Raise (e : PyExn).
Arguments Ok {A} a.
Arguments Raise {A} e.

Definition is_ok {A} (r : result A) : bool :=
  match r with Ok _ => true | Raise _ => false end.

(** [MergeBehaviour] of [workflow/decorators.py], with the three members
    that [protocols.py] refers to. *)
Inductive MergeBehaviour := ExactlyEqual | SmallestValue | GreatestValue.

(** A class attribute as the code inspects it: the descriptor created by
    [@protocol_input] (which may or may not carry a [merge_behavior]
    attribute), the one created by [@protocol_output], or anything else. *)
Inductive ClassAttribute :=
  | ProtocolInputObject (merge_behavior : option MergeBehaviour)
  | ProtocolOutputObject
  | PlainAttribute.

(** A class: its [__name__], its [__dict__] in definition order and its
    base class.  Every class of the two modules has a single base. *)
Inductive PyClass :=
  | object
  | Class (name : string) (dict : list (string * ClassAttribute)) (base : PyClass).

Global Instance MergeBehaviour_eq_dec : EqDecision MergeBehaviour.
Proof. solve_decision. Defined.
Global Instance ClassAttribute_eq_dec : EqDecision ClassAttribute.
Proof. solve_decision. Defined.
Global Instance PyClass_eq_dec : EqDecision PyClass.
Proof. solve_decision. Defined.
Global Instance PyExn_eq_dec : EqDecision PyExn.
Proof. solve_decision. Defined.

Definition __name__ (cls : PyClass) : string :=
  match cls with object => "object" | Class n _ _ => n end.

Definition __dict__ (cls : PyClass) : list (string * ClassAttribute) :=
  match cls with object => [] | Class _ d _ => d end.

(** ** layers.py *)
Module Layers.

(** *** The registry of calculation layers *)

(** [register_calculation_layer()(cls)]: the module level dictionary
    [available_layers] is threaded through; the second component is what
    the decorator returns or raises. *)
Definition register_calculation_layer (cls : PyClass)
    (available_layers : gmap string PyClass) : gmap string PyClass * result PyClass :=
  if decide (is_Some (available_layers !! __name__ cls)) then
    (available_layers,
     Raise (ValueError ("The " +:+ __name__ cls +:+ " layer is already registered.")))
  else
    (<[__name__ cls := cls]> available_layers, Ok cls).

(** *** The objects exchanged with a calculation layer *)

(** [Substance] (substances.py) is only used through its [identifier]. *)
Record Substance := { identifier : string }.

(** A physical property.  [prop_ref] is the identity of the Python object:
    the class defines no [__eq__], so [==] on properties, which
    [list.remove] uses, is identity.  A property whose [substance] is
    [None] makes [.substance.identifier] raise. *)
Record PhysicalProperty := {
  prop_ref : nat;
  prop_id : string;
  substance : option Substance
}.

(** [PropertyEstimatorException] (utils/exceptions.py), as constructed in
    the two modules. *)
Record PropertyEstimatorException := {
  directory : option string;
  message : string
}.

Record CalculationLayerResult := {
  property_id : option string;
  calculated_property : option PhysicalProperty;
  exception : option PropertyEstimatorException;
  data_directories_to_store : option (list string)
}.

(** [CalculationLayerResult.__init__] *)
Definition CalculationLayerResult_init : CalculationLayerResult :=
  {| property_id := None; calculated_property := None; exception := None;
     data_directories_to_store := Some [] |}.

(** One element of the list a layer returns: [None], a
    [CalculationLayerResult], or an object of any other type. *)
Inductive ReturnedOutput :=
  | PyNone
  | LayerResult (r : CalculationLayerResult)
  | OtherObject (repr : string).

Record ServerEstimationRequest := {
  request_id : string;
  force_field_id : option string;
  queued_properties : list PhysicalProperty;
  estimated_properties : gmap string (list PhysicalProperty);
  unsuccessful_properties : gmap string (list PhysicalProperty);
  exceptions : list PropertyEstimatorException
}.

(** The object stored in [data.json] of a data directory. *)
Record StoredData := {
  data_force_field_id : option string;
  data_substance : Substance
}.

(** What is found at [<data_directory>/data.json] when the directory and
    the file exist: a decodable object, or a file on which [json.load]
    raises. *)
Inductive DataFile :=
  | Decodable (d : StoredData)
  | Undecodable (why : string).

(** Everything [_process_results] reads or mutates: the request, the data
    directories on disk (a directory without an entry is missing, or lacks
    its [data.json]), the calls received by the storage backend, and the
    calls received by the completion callback, each with the request as it
    was when passed. *)
Record World := {
  request : ServerEstimationRequest;
  files : gmap string DataFile;
  stored : list (string * string);
  callbacks : list ServerEstimationRequest
}.

Global Instance Substance_eq_dec : EqDecision Substance.
Proof. solve_decision. Defined.
Global Instance PhysicalProperty_eq_dec : EqDecision PhysicalProperty.
Proof. solve_decision. Defined.

Definition set_request (w : World) (r : ServerEstimationRequest) : World :=
  {| request := r; files := files w; stored := stored w; callbacks := callbacks w |}.

Definition set_queued_properties (r : ServerEstimationRequest)
    (q : list PhysicalProperty) : ServerEstimationRequest :=
  {| request_id := request_id r; force_field_id := force_field_id r;
     queued_properties := q;
     estimated_properties := estimated_properties r;
     unsuccessful_properties := unsuccessful_properties r;
     exceptions := exceptions r |}.

(** [server_request.exceptions.append(e)] *)
Definition append_exception (r : ServerEstimationRequest)
    (e : PropertyEstimatorException) : ServerEstimationRequest :=
  {| request_id := request_id r; force_field_id := force_field_id r;
     queued_properties := queued_properties r;
     estimated_properties := estimated_properties r;
     unsuccessful_properties := unsuccessful_properties r;
     exceptions := exceptions r ++ [e] |}.

(** [if k not in d: d[k] = []] followed by [d[k].append(v)] *)
Definition dict_append (d : gmap string (list PhysicalProperty)) (k : string)
    (v : PhysicalProperty) : gmap string (list PhysicalProperty) :=
  <[k := default [] (d !! k) ++ [v]]> d.

Definition append_estimated (r : ServerEstimationRequest) (k : string)
    (v : PhysicalProperty) : ServerEstimationRequest :=
  {| request_id := request_id r; force_field_id := force_field_id r;
     queued_properties := queued_properties r;
     estimated_properties := dict_append (estimated_properties r) k v;
     unsuccessful_properties := unsuccessful_properties r;
     exceptions := exceptions r |}.

Definition append_unsuccessful (r : ServerEstimationRequest) (k : string)
    (v : PhysicalProperty) : ServerEstimationRequest :=
  {| request_id := request_id r; force_field_id := force_field_id r;
     queued_properties := queued_properties r;
     estimated_properties := estimated_properties r;
     unsuccessful_properties := dict_append (unsuccessful_properties r) k v;
     exceptions := exceptions r |}.

(** Python's [list.remove(x)]: drops the first element equal to [x], and
    raises [ValueError] when there is none. *)
Fixpoint list_remove (x : PhysicalProperty) (l : list PhysicalProperty)
    : result (list PhysicalProperty) :=
  match l with
  | [] => Raise (ValueError "list.remove(x): x not in list")
  | y :: l' =>
      if decide (y = x) then Ok l'
      else match list_remove x l' with
           | Ok l'' => Ok (y :: l'')
           | Raise e => Raise e
           end
  end.

(** [for match in matches: server_request.queued_properties.remove(match)];
    the queue reached so far is returned also when a removal raises. *)
Fixpoint remove_matches (matches queue : list PhysicalProperty)
    : list PhysicalProperty * option PyExn :=
  match matches with
  | [] => (queue, None)
  | m :: ms =>
      match list_remove m queue with
      | Ok queue' => remove_matches ms queue'
      | Raise e => (queue, Some e)
      end
  end.

(** The loop over [returned_output.data_directories_to_store] (lines
    162-183): a directory that is missing or has no [data.json] is skipped;
    otherwise the stored object is loaded, its force field id is filled in
    from the request when absent, the file is written back and the
    directory is handed to the storage backend. *)
Fixpoint store_data_directories (w : World) (dirs : list string) : World * option PyExn :=
  match dirs with
  | [] => (w, None)
  | data_directory :: rest =>
      match files w !! data_directory with
      | None => store_data_directories w rest
      | Some (Undecodable why) => (w, Some (CollaboratorError why))
      | Some (Decodable data_object) =>
          let data_object' :=
            match data_force_field_id data_object with
            | None => {| data_force_field_id := force_field_id (request w);
                         data_substance := data_substance data_object |}
            | Some _ => data_object
            end in
          let substance_id := identifier (data_substance data_object') in
          store_data_directories
            {| request := request w;
               files := <[data_directory := Decodable data_object']> (files w);
               stored := stored w ++ [(substance_id, data_directory)];
               callbacks := callbacks w |}
            rest
      end
  end.

(** [str(x)] of an optional string, as an f-string renders it. *)
Definition str_of (x : option string) : string := default "None" x.

(** Whether [x.id == returned_output.property_id]. *)
Definition id_matches (r : CalculationLayerResult) (x : PhysicalProperty) : Prop :=
  property_id r = Some (prop_id x).

Global Instance id_matches_dec r x : Decision (id_matches r x).
Proof. unfold id_matches. apply _. Defined.

(** Lines 185-228 of the loop body: matching the result against the queue
    and routing its property. *)
Definition route_result (w : World) (returned_output : CalculationLayerResult)
    : World * option PyExn :=
  let matches := filter (id_matches returned_output) (queued_properties (request w)) in
  let '(queue, raised) := remove_matches matches (queued_properties (request w)) in
  let w := set_request w (set_queued_properties (request w) queue) in
  match raised with
  | Some e => (w, Some e)
  | None =>
      if decide (1 < length matches)%nat then
        (w, Some (ValueError ("A property id (" +:+ str_of (property_id returned_output)
                                +:+ ") conflict occurred.")))
      else if decide (length matches = 0)%nat then (w, None)
      else
        match calculated_property returned_output with
        | None => (w, None)
        | Some calculated =>
            match substance calculated with
            | None =>
                (w, Some (AttributeError "'NoneType' object has no attribute 'identifier'"))
            | Some s =>
                let substance_id := identifier s in
                match exception returned_output with
                | None =>
                    (set_request w (append_estimated (request w) substance_id calculated), None)
                | Some _ =>
                    (set_request w (append_unsuccessful (request w) substance_id calculated), None)
                end
            end
        end
  end.

(** Lines 151-183 of the loop body: an exception carried by the result is
    appended to the request; otherwise the data directories are stored when
    the result has a property. *)
Definition record_and_store (w : World) (returned_output : CalculationLayerResult)
    : World * option PyExn :=
  match exception returned_output with
  | Some e => (set_request w (append_exception (request w) e), None)
  | None =>
      match data_directories_to_store returned_output,
            calculated_property returned_output with
      | Some dirs, Some _ => store_data_directories w dirs
      | _, _ => (w, None)
      end
  end.

(** One iteration of [for returned_output in results] (lines 138-228).
    [None] in the second component means that the iteration ended normally
    (possibly through [continue]); [Some e] that it raised [e]. *)
Definition process_output (w : World) (returned_output : ReturnedOutput)
    : World * option PyExn :=
  match returned_output with
  | PyNone => (w, None)
  | OtherObject _ =>
      (w, Some (ValueError
         "The output of the calculation was not a CalculationLayerResult as expected."))
  | LayerResult r =>
      match record_and_store w r with
      | (w', Some e) => (w', Some e)
      | (w', None) => route_result w' r
      end
  end.

(** The [for] loop: a raised exception leaves the loop. *)
Fixpoint process_outputs (w : World) (results : list ReturnedOutput)
    : World * option PyExn :=
  match results with
  | [] => (w, None)
  | returned_output :: rest =>
      match process_output w returned_output with
      | (w', None) => process_outputs w' rest
      | (w', Some e) => (w', Some e)
      end
  end.

(** The future handed to [_process_results]: what [result()] returns or
    raises, and the exception that [release()] raises, if any. *)
Record Future := {
  future_result : result (list ReturnedOutput);
  future_release : option PyExn
}.

(** A future that completed with [results] and is released without
    incident. *)
Definition completed (results : list ReturnedOutput) : Future :=
  {| future_result := Ok results; future_release := None |}.

(** A future whose [result()] raises. *)
Definition failed_future (e : PyExn) : Future :=
  {| future_result := Raise e; future_release := None |}.

Section ProcessResults.

(** [traceback.format_exception(None, e, e.__traceback__)], rendered by
    [str.format]: Python's own, taken as given. *)
Variable format_exception : PyExn -> string.

(** The exception built by the [except Exception as e] handler. *)
Definition unhandled (e : PyExn) : PropertyEstimatorException :=
  {| directory := None;
     message := "An unhandled internal exception occurred: " +:+ format_exception e |}.

(** The body of the [try] statement (lines 135-228). *)
Definition try_body (results_future : Future) (w : World) : World * option PyExn :=
  match future_result results_future with
  | Raise e => (w, Some e)
  | Ok results =>
      match future_release results_future with
      | Some e => (w, Some e)
      | None => process_outputs w results
      end
  end.

(** [PropertyCalculationLayer._process_results]: the guarded body, the
    handler, then [callback(server_request)]. *)
Definition _process_results (results_future : Future) (w : World) : World :=
  let '(w, raised) := try_body results_future w in
  let w :=
    match raised with
    | Some e => set_request w (append_exception (request w) (unhandled e))
    | None => w
    end in
  {| request := request w; files := files w; stored := stored w;
     callbacks := callbacks w ++ [request w] |}.

End ProcessResults.

End Layers.

(** ** workflow/protocols.py *)
Module Protocols.

(** Modelled from the spec: [ProtocolPath] of [workflow/utils.py] is not
    among the sources.  The spec gives an address a property name and a
    chain of protocol ids, which may be empty (a local address), and makes
    two addresses equal when their components agree.  [start_protocol] and
    [last_protocol] are the two ends of the chain. *)
Record ProtocolPath := {
  property_name : string;
  protocol_ids : list string
}.

Global Instance ProtocolPath_eq_dec : EqDecision ProtocolPath.
Proof. solve_decision. Defined.

Definition start_protocol (path : ProtocolPath) : option string :=
  head (protocol_ids path).

Definition last_protocol (path : ProtocolPath) : option string :=
  last (protocol_ids path).

(** The values an attribute of a protocol holds: [None], booleans,
    integers, strings and references to other protocols. *)
Inductive Value :=
  | VNone
  | VBool (b : bool)
  | VInt (z : Z)
  | VStr (s : string)
  | VPath (path : ProtocolPath).

Global Instance Value_eq_dec : EqDecision Value.
Proof. solve_decision. Defined.

(** [bool] is a subclass of [int]: [True == 1] and [False < 1]. *)
Definition as_number (v : Value) : option Z :=
  match v with
  | VBool b => Some (Z.b2z b)
  | VInt z => Some z
  | _ => None
  end.

(** [a == b] *)
Definition py_eq (a b : Value) : bool :=
  match as_number a, as_number b with
  | Some x, Some y => bool_decide (x = y)
  | _, _ => bool_decide (a = b)
  end.

(** [a < b]: numbers with numbers, strings with strings, [TypeError]
    otherwise. *)
Definition py_lt (a b : Value) : result bool :=
  match as_number a, as_number b with
  | Some x, Some y => Ok (bool_decide (x < y)%Z)
  | _, _ =>
      match a, b with
      | VStr x, VStr y => Ok (String.ltb x y)
      | _, _ => Raise (TypeError "'<' not supported between instances")
      end
  end.

(** [min(a, b)]: the first argument, unless the second is smaller. *)
Definition py_min (a b : Value) : result Value :=
  match py_lt b a with
  | Ok true => Ok b
  | Ok false => Ok a
  | Raise e => Raise e
  end.

(** [max(a, b)]: the first argument, unless the second is greater. *)
Definition py_max (a b : Value) : result Value :=
  match py_lt a b with
  | Ok true => Ok b
  | Ok false => Ok a
  | Raise e => Raise e
  end.

(** The truth value of [v] in [if not v]. *)
Definition truthy (v : Value) : bool :=
  match v with
  | VNone => false
  | VBool b => b
  | VInt z => negb (z =? 0)%Z
  | VStr s => negb (String.eqb s EmptyString)
  | VPath _ => true
  end.

(** [s.find(sub)]: the lowest index at which [sub] occurs in [s], or -1. *)
Fixpoint find_from (s sub : string) (i : Z) : Z :=
  if String.prefix sub s then i
  else match s with
       | EmptyString => (-1)%Z
       | String _ s' => find_from s' sub (i + 1)
       end.

Definition find (s sub : string) : Z := find_from s sub 0.

(** *** Classes *)

(** [get_bases] of [utils.find_types_with_decorator]. *)
Fixpoint get_bases (current_base_type : PyClass) : list PyClass :=
  match current_base_type with
  | object => [object]
  | Class _ _ base_type => current_base_type :: get_bases base_type
  end.

(** [type(attribute).__name__] *)
Definition type_name (a : ClassAttribute) : string :=
  match a with
  | ProtocolInputObject _ => "ProtocolInputObject"
  | ProtocolOutputObject => "ProtocolOutputObject"
  | PlainAttribute => "function"
  end.

(** [utils.find_types_with_decorator(class_type, decorator_type)] *)
Definition find_types_with_decorator (class_type : PyClass) (decorator_type : string)
    : list string :=
  concat (map (fun base =>
                 map fst (filter (fun entry => type_name entry.2 = decorator_type)
                                 (__dict__ base)))
              (get_bases class_type)).

(** [d[key]] on a [__dict__] *)
Fixpoint dict_get (d : list (string * ClassAttribute)) (key : string)
    : option ClassAttribute :=
  match d with
  | [] => None
  | (k, a) :: d' => if decide (k = key) then Some a else dict_get d' key
  end.

(** [getattr(cls, attribute_name)]: the first class along the bases that
    defines the attribute; [None] stands for [AttributeError]. *)
Fixpoint class_getattr (cls : PyClass) (attribute_name : string) : option ClassAttribute :=
  match cls with
  | object => None
  | Class _ d base =>
      match dict_get d attribute_name with
      | Some a => Some a
      | None => class_getattr base attribute_name
      end
  end.

(** [descriptor.merge_behavior] where [hasattr(descriptor, 'merge_behavior')]. *)
Definition merge_behavior (a : ClassAttribute) : option MergeBehaviour :=
  match a with
  | ProtocolInputObject mb => mb
  | _ => None
  end.

(** *** BaseProtocol *)

(** A protocol object.  [attributes] is what [hasattr], [getattr] and
    [setattr] see of the instance for the names of data attributes: the
    decorated inputs and outputs (backed by private fields) and plain
    instance attributes such as [directory]. *)
Record BaseProtocol := {
  _id : string;
  type : PyClass;
  attributes : gmap string Value;
  required_inputs : list ProtocolPath;
  provided_outputs : list ProtocolPath
}.

Definition with_id (self : BaseProtocol) (new_id : string) : BaseProtocol :=
  {| _id := new_id; type := type self; attributes := attributes self;
     required_inputs := required_inputs self;
     provided_outputs := provided_outputs self |}.

Definition with_required_inputs (self : BaseProtocol) (l : list ProtocolPath)
    : BaseProtocol :=
  {| _id := _id self; type := type self; attributes := attributes self;
     required_inputs := l; provided_outputs := provided_outputs self |}.

Definition with_provided_outputs (self : BaseProtocol) (l : list ProtocolPath)
    : BaseProtocol :=
  {| _id := _id self; type := type self; attributes := attributes self;
     required_inputs := required_inputs self; provided_outputs := l |}.

(** [setattr(self, name, value)] *)
Definition setattr (self : BaseProtocol) (name : string) (value : Value) : BaseProtocol :=
  {| _id := _id self; type := type self;
     attributes := <[name := value]> (attributes self);
     required_inputs := required_inputs self;
     provided_outputs := provided_outputs self |}.

(** [ProtocolPath(attribute_name)]: an address without protocol ids. *)
Definition local_path (attribute_name : string) : ProtocolPath :=
  {| property_name := attribute_name; protocol_ids := [] |}.

(** The required inputs as [__init__] derives them from the class. *)
Definition declared_inputs (cls : PyClass) : list ProtocolPath :=
  map local_path (find_types_with_decorator cls "ProtocolInputObject").

(** [BaseProtocol.__init__], for a protocol of class [cls]. *)
Definition BaseProtocol_init (cls : PyClass) (protocol_id : string) : BaseProtocol :=
  {| _id := protocol_id;
     type := cls;
     attributes := <["allow_merging" := VBool true]> (<["directory" := VNone]> ∅);
     required_inputs := declared_inputs cls;
     provided_outputs := map local_path (find_types_with_decorator cls "ProtocolOutputObject") |}.

(** [isinstance(self, cls)] *)
Definition isinstance (self : BaseProtocol) (cls : PyClass) : bool :=
  bool_decide (cls ∈ get_bases (type self)).

(** [reference_path.start_protocol is not None and
     reference_path.start_protocol != self.id] *)
Definition targets_other (self : BaseProtocol) (reference_path : ProtocolPath) : bool :=
  match start_protocol reference_path with
  | None => false
  | Some start => negb (bool_decide (start = _id self))
  end.

Definition get_value (self : BaseProtocol) (reference_path : ProtocolPath) : result Value :=
  if targets_other self reference_path then
    Raise (ValueError "The reference path does not target this protocol.")
  else
    match attributes self !! property_name reference_path with
    | None =>
        Raise (ValueError ("This protocol does not have contain a "
                             +:+ property_name reference_path +:+ " property."))
    | Some v => Ok v
    end.

(** [set_value] returns the protocol after the call; it is [self] itself
    when the call raises. *)
Definition set_value (self : BaseProtocol) (reference_path : ProtocolPath) (value : Value)
    : BaseProtocol * option PyExn :=
  if targets_other self reference_path then
    (self, Some (ValueError "The reference path does not target this protocol."))
  else
    match attributes self !! property_name reference_path with
    | None =>
        (self, Some (ValueError ("This protocol does not have contain a "
                                   +:+ property_name reference_path +:+ " property.")))
    | Some _ =>
        if bool_decide (reference_path ∈ provided_outputs self) then
          (self, Some (ValueError "Output values cannot be set by this method."))
        else
          (setattr self (property_name reference_path) value, None)
    end.

(** [input_path.start_protocol is None or
     (input_path.start_protocol == input_path.last_protocol and
      input_path.start_protocol == self.id)] *)
Definition locally_scoped (self : BaseProtocol) (input_path : ProtocolPath) : bool :=
  match start_protocol input_path with
  | None => true
  | Some start =>
      bool_decide (Some start = last_protocol input_path)
      && bool_decide (start = _id self)
  end.

(** The loop of [can_merge] over [self.required_inputs]. *)
Fixpoint can_merge_inputs (self other : BaseProtocol) (inputs : list ProtocolPath)
    : result bool :=
  match inputs with
  | [] => Ok true
  | input_path :: rest =>
      if targets_other self input_path then can_merge_inputs self other rest
      else if negb (locally_scoped self input_path) then can_merge_inputs self other rest
      else
        match class_getattr (type self) (property_name input_path) with
        | None =>
            Raise (AttributeError ("type object has no attribute "
                                     +:+ property_name input_path))
        | Some descriptor =>
            match merge_behavior descriptor with
            | None => can_merge_inputs self other rest
            | Some SmallestValue | Some GreatestValue => can_merge_inputs self other rest
            | Some ExactlyEqual =>
                if negb (bool_decide (input_path ∈ required_inputs other)) then Ok false
                else
                  match get_value self input_path with
                  | Raise e => Raise e
                  | Ok self_value =>
                      match get_value other input_path with
                      | Raise e => Raise e
                      | Ok other_value =>
                          if negb (py_eq self_value other_value) then Ok false
                          else can_merge_inputs self other rest
                      end
                  end
            end
        end
  end.

(** [self.allow_merging] *)
Definition allow_merging (self : BaseProtocol) : result Value :=
  match attributes self !! "allow_merging" with
  | Some v => Ok v
  | None => Raise (AttributeError "object has no attribute '_allow_merging'")
  end.

Definition can_merge (self other : BaseProtocol) : result bool :=
  match allow_merging self with
  | Raise e => Raise e
  | Ok allowed =>
      if negb (truthy allowed) then Ok false
      else if negb (isinstance self (type other)) then Ok false
      else can_merge_inputs self other (required_inputs self)
  end.

(** The value that one iteration of [merge] computes: [value = None],
    replaced by the [min] or the [max] of the two values according to the
    merge behaviour.  The arguments are the values that [self.get_value]
    and [other.get_value] returned. *)
Definition merge_values (behaviour : MergeBehaviour) (self_value other_value : Value)
    : result Value :=
  match behaviour with
  | SmallestValue => py_min self_value other_value
  | GreatestValue => py_max self_value other_value
  | ExactlyEqual => Ok VNone
  end.

(** One iteration of the loop of [merge]. *)
Definition merge_input (other self : BaseProtocol) (input_path : ProtocolPath)
    : BaseProtocol * option PyExn :=
  if negb (locally_scoped self input_path) then (self, None)
  else
    match class_getattr (type self) (property_name input_path) with
    | None =>
        (self, Some (AttributeError ("type object has no attribute "
                                       +:+ property_name input_path)))
    | Some descriptor =>
        match merge_behavior descriptor with
        | None => (self, None)
        | Some ExactlyEqual => (self, None)
        | Some behaviour =>
            match get_value self input_path with
            | Raise e => (self, Some e)
            | Ok self_value =>
                match get_value other input_path with
                | Raise e => (self, Some e)
                | Ok other_value =>
                    match merge_values behaviour self_value other_value with
                    | Raise e => (self, Some e)
                    | Ok value => set_value self input_path value
                    end
                end
            end
        end
    end.

(** The loop of [merge]; [self.required_inputs] is not changed by it. *)
Fixpoint merge_inputs (other self : BaseProtocol) (inputs : list ProtocolPath)
    : BaseProtocol * option PyExn :=
  match inputs with
  | [] => (self, None)
  | input_path :: rest =>
      match merge_input other self input_path with
      | (self', None) => merge_inputs other self' rest
      | (self', Some e) => (self', Some e)
      end
  end.

(** [merge]: [self] after the call, and the returned dictionary. *)
Definition merge (self other : BaseProtocol) : BaseProtocol * result (gmap string string) :=
  match merge_inputs other self (required_inputs self) with
  | (self', None) => (self', Ok ∅)
  | (self', Some e) => (self', Raise e)
  end.

(** *** The inputs that the two loops act on *)

(** The merge behaviour that the loops of [can_merge] and [merge] read for
    an input path, when the class has the attribute and the attribute has
    a [merge_behavior]. *)
Definition input_merge_behavior (self : BaseProtocol) (input_path : ProtocolPath)
    : option MergeBehaviour :=
  match class_getattr (type self) (property_name input_path) with
  | Some descriptor => merge_behavior descriptor
  | None => None
  end.

(** A locally scoped input tagged [ExactlyEqual]. *)
Definition exactly_equal_input (self : BaseProtocol) (input_path : ProtocolPath) : Prop :=
  locally_scoped self input_path = true /\
  input_merge_behavior self input_path = Some ExactlyEqual.

(** Both protocols have a value at the path, and the two are [==]. *)
Definition values_agree (self other : BaseProtocol) (input_path : ProtocolPath) : Prop :=
  exists self_value other_value,
    get_value self input_path = Ok self_value /\
    get_value other input_path = Ok other_value /\
    py_eq self_value other_value = true.

(** Both protocols have a value at the path, and the two are [!=]. *)
Definition values_differ (self other : BaseProtocol) (input_path : ProtocolPath) : Prop :=
  exists self_value other_value,
    get_value self input_path = Ok self_value /\
    get_value other input_path = Ok other_value /\
    py_eq self_value other_value = false.

(** Whether [min] and [max] accept the two values. *)
Definition comparable (a b : Value) : Prop := is_ok (py_lt a b) = true.


(** What [merge] needs of an input path to get through its iteration: a
    locally scoped path names an attribute of the class, and when that
    attribute is tagged [SmallestValue] or [GreatestValue], the path is
    not an output and both protocols hold comparable values for it. *)
Definition mergeable_input (self other : BaseProtocol) (input_path : ProtocolPath) : Prop :=
  locally_scoped self input_path = true ->
  is_Some (class_getattr (type self) (property_name input_path)) /\
  (forall behaviour,
     input_merge_behavior self input_path = Some behaviour ->
     behaviour <> ExactlyEqual ->
     (input_path ∉ provided_outputs self) /\
     (exists self_value other_value,
        get_value self input_path = Ok self_value /\
        get_value other input_path = Ok other_value /\
        comparable self_value other_value)).

(** During [merge], [self] keeps its id, class and paths. *)
Definition same_shape (current self : BaseProtocol) : Prop :=
  _id current = _id self /\ type current = type self /\
  required_inputs current = required_inputs self /\
  provided_outputs current = provided_outputs self.


Section SetUuid.

(** [graph.append_uuid(protocol_id, uuid)] of [utils/graph.py] and
    [ProtocolPath.append_uuid(uuid)] of [workflow/utils.py] are not among
    the sources; [set_uuid] is modelled for any two such functions. *)
Variable graph_append_uuid : string -> string -> string.
Variable path_append_uuid : ProtocolPath -> string -> ProtocolPath.

(** The loop over [self.required_inputs]: the paths before the current
    one are [done], the current and later ones [todo].  A reference held
    by an input is updated where it is stored; a [ProtocolPath] object that
    is the value of two inputs at once is treated as two equal paths. *)
Fixpoint set_uuid_inputs (self : BaseProtocol) (done todo : list ProtocolPath)
    (value : string) : BaseProtocol * option PyExn :=
  match todo with
  | [] => (with_required_inputs self done, None)
  | input_path :: rest =>
      let input_path := path_append_uuid input_path value in
      let self := with_required_inputs self (done ++ input_path :: rest) in
      match get_value self input_path with
      | Raise e => (self, Some e)
      | Ok input_value =>
          let self :=
            match input_value with
            | VPath referenced =>
                setattr self (property_name input_path)
                        (VPath (path_append_uuid referenced value))
            | _ => self
            end in
          set_uuid_inputs self (done ++ [input_path]) rest value
      end
  end.

Definition set_uuid (self : BaseProtocol) (value : string) : BaseProtocol * option PyExn :=
  if decide (0 <= find (_id self) value)%Z then (self, None)
  else
    let self := with_id self (graph_append_uuid (_id self) value) in
    match set_uuid_inputs self [] (required_inputs self) value with
    | (self, Some e) => (self, Some e)
    | (self, None) =>
        (with_provided_outputs self
           (map (fun output_path => path_append_uuid output_path value)
                (provided_outputs self)),
         None)
    end.

End SetUuid.

End Protocols.

(** ** Concrete objects *)
Module Examples.
Import Layers.

Definition DirectCalculationLayer : PyClass := Class "DirectCalculationLayer" [] object.
Definition SimulationLayer : PyClass := Class "SimulationLayer" [] object.

Definition water : Substance := {| identifier := "O{1.0}" |}.
Definition methanol : Substance := {| identifier := "CO{1.0}" |}.

Definition P1 : PhysicalProperty :=
  {| prop_ref := 1; prop_id := "P1"; substance := Some water |}.
Definition P2 : PhysicalProperty :=
  {| prop_ref := 2; prop_id := "P2"; substance := Some methanol |}.
Definition P3 : PhysicalProperty :=
  {| prop_ref := 3; prop_id := "P3"; substance := Some water |}.

(** A second queued object with the id of [P1]. *)
Definition P1_again : PhysicalProperty :=
  {| prop_ref := 4; prop_id := "P1"; substance := Some water |}.

(** The property objects that the layer built for [P1] and [P2]. *)
Definition C1 : PhysicalProperty :=
  {| prop_ref := 11; prop_id := "P1"; substance := Some water |}.
Definition C2 : PhysicalProperty :=
  {| prop_ref := 12; prop_id := "P2"; substance := Some methanol |}.

Definition failed : PropertyEstimatorException :=
  {| directory := Some "working/P2"; message := "The simulation did not converge" |}.

Definition successFor_P1 : CalculationLayerResult :=
  {| property_id := Some "P1"; calculated_property := Some C1; exception := None;
     data_directories_to_store := Some ["working/P1/data"; "working/P1/missing"] |}.

Definition exceptionFor_P2 : CalculationLayerResult :=
  {| property_id := Some "P2"; calculated_property := Some C2; exception := Some failed;
     data_directories_to_store := Some [] |}.

Definition new_request (queue : list PhysicalProperty) : ServerEstimationRequest :=
  {| request_id := "request-1"; force_field_id := Some "smirnoff99Frosst";
     queued_properties := queue; estimated_properties := ∅;
     unsuccessful_properties := ∅; exceptions := [] |}.

(** A world in which one of the two data directories of [successFor_P1]
    exists, with a stored object that has no force field id yet. *)
Definition world (queue : list PhysicalProperty) : World :=
  {| request := new_request queue;
     files := {[ "working/P1/data" :=
                   Decodable {| data_force_field_id := None; data_substance := water |} ]};
     stored := [];
     callbacks := [] |}.

(** A stand-in for Python's rendering of a trace. *)
Definition show_exception (e : PyExn) : string :=
  match e with
  | ValueError msg => "ValueError: " +:+ msg
  | AttributeError msg => "AttributeError: " +:+ msg
  | TypeError msg => "TypeError: " +:+ msg
  | CollaboratorError msg => "Exception: " +:+ msg
  end.

(** *** Protocols *)
Import Protocols.

(** [BaseProtocol], with the input it declares.  The merge behaviour of an
    input declared without one is taken to be [ExactlyEqual]. *)
Definition BaseProtocolClass : PyClass :=
  Class "BaseProtocol"
    [("allow_merging", ProtocolInputObject (Some ExactlyEqual));
     ("execute", PlainAttribute);
     ("can_merge", PlainAttribute);
     ("merge", PlainAttribute)]
    object.

(** [RunOpenMMSimulation], with those of its inputs and outputs whose
    values are integers or strings. *)
Definition RunOpenMMSimulation : PyClass :=
  Class "RunOpenMMSimulation"
    [("steps", ProtocolInputObject (Some GreatestValue));
     ("output_frequency", ProtocolInputObject (Some SmallestValue));
     ("input_coordinate_file", ProtocolInputObject (Some ExactlyEqual));
     ("output_coordinate_file", ProtocolOutputObject);
     ("trajectory_file_path", ProtocolOutputObject);
     ("execute", PlainAttribute)]
    BaseProtocolClass.

(** A class derived from [RunOpenMMSimulation] that only overrides
    [execute]. *)
Definition RestartableSimulation : PyClass :=
  Class "RestartableSimulation" [("execute", PlainAttribute)] RunOpenMMSimulation.

(** [cls(protocol_id)] for [RunOpenMMSimulation] and the classes derived
    from it, followed by the assignment of three inputs. *)
Definition simulation (cls : PyClass) (protocol_id : string) (steps output_frequency : Z)
    (input_coordinate_file : string) : BaseProtocol :=
  let self := BaseProtocol_init cls protocol_id in
  let self := setattr self "output_coordinate_file" VNone in
  let self := setattr self "trajectory_file_path" VNone in
  let self := setattr self "steps" (VInt steps) in
  let self := setattr self "output_frequency" (VInt output_frequency) in
  setattr self "input_coordinate_file" (VStr input_coordinate_file).

Definition npt_a : BaseProtocol := simulation RunOpenMMSimulation "npt_a" 20 500 "box.pdb".
Definition npt_b : BaseProtocol := simulation RunOpenMMSimulation "npt_b" 50 100 "box.pdb".
Definition npt_c : BaseProtocol := simulation RunOpenMMSimulation "npt_c" 50 100 "other.pdb".
Definition npt_restartable : BaseProtocol :=
  simulation RestartableSimulation "npt_r" 20 500 "box.pdb".

(** Stand-ins for [graph.append_uuid] and [ProtocolPath.append_uuid]. *)
Definition tag_id (protocol_id uuid : string) : string := uuid +:+ "|" +:+ protocol_id.

Definition tag_path (path : ProtocolPath) (uuid : string) : ProtocolPath :=
  {| property_name := property_name path;
     protocol_ids := map (fun protocol_id => tag_id protocol_id uuid) (protocol_ids path) |}.

End Examples.

(** ** workflow/protocols.py: the other methods of [BaseProtocol] *)
Module ProtocolMethods.
Import Protocols.

(** *** dependencies *)

(** The loop of the [dependencies] property: the references held by the
    required inputs, each one once, in the order in which they are met. *)
Fixpoint dependencies_loop (self : BaseProtocol) (inputs : list ProtocolPath)
    (return_dependencies : list ProtocolPath) : result (list ProtocolPath) :=
  match inputs with
  | [] => Ok return_dependencies
  | input_path :: rest =>
      match get_value self input_path with
      | Raise e => Raise e
      | Ok (VPath input_value) =>
          if bool_decide (input_value ∈ return_dependencies)
          then dependencies_loop self rest return_dependencies
          else dependencies_loop self rest (return_dependencies ++ [input_value])
      | Ok _ => dependencies_loop self rest return_dependencies
      end
  end.

Definition dependencies (self : BaseProtocol) : result (list ProtocolPath) :=
  dependencies_loop self (required_inputs self) [].

(** *** replace_protocol *)

(** [input_path.start_protocol is not None or
     (input_path.start_protocol != input_path.last_protocol and
      input_path.start_protocol != self.id)]: the test after which
    [replace_protocol] leaves the value of an input alone. *)
Definition keeps_input_value (self : BaseProtocol) (input_path : ProtocolPath) : bool :=
  bool_decide (start_protocol input_path <> None)
  || (bool_decide (start_protocol input_path <> last_protocol input_path)
      && bool_decide (start_protocol input_path <> Some (_id self))).

Section ReplaceProtocol.

(** [ProtocolPath.replace_protocol(old_id, new_id)] of [workflow/utils.py]
    is not among the sources; [replace_protocol] is modelled for any such
    function. *)
Variable path_replace_protocol : ProtocolPath -> string -> string -> ProtocolPath.

(** The loop over [self.required_inputs], with the paths already met in
    [done] and the others in [todo].  A reference held by an input is
    updated where it is stored; a [ProtocolPath] object that is the value
    of two inputs at once is treated as two equal paths. *)
Fixpoint replace_protocol_inputs (self : BaseProtocol) (done todo : list ProtocolPath)
    (old_id new_id : string) : BaseProtocol * option PyExn :=
  match todo with
  | [] => (with_required_inputs self done, None)
  | input_path :: rest =>
      let input_path := path_replace_protocol input_path old_id new_id in
      let self := with_required_inputs self (done ++ input_path :: rest) in
      if keeps_input_value self input_path then
        replace_protocol_inputs self (done ++ [input_path]) rest old_id new_id
      else
        match get_value self input_path with
        | Raise e => (self, Some e)
        | Ok input_value =>
            let self :=
              match input_value with
              | VPath referenced =>
                  setattr self (property_name input_path)
                          (VPath (path_replace_protocol referenced old_id new_id))
              | _ => self
              end in
            replace_protocol_inputs self (done ++ [input_path]) rest old_id new_id
        end
  end.

Definition replace_protocol (self : BaseProtocol) (old_id new_id : string)
    : BaseProtocol * option PyExn :=
  match replace_protocol_inputs self [] (required_inputs self) old_id new_id with
  | (self, Some e) => (self, Some e)
  | (self, None) =>
      (with_provided_outputs self
         (map (fun output_path => path_replace_protocol output_path old_id new_id)
              (provided_outputs self)),
       None)
  end.

End ReplaceProtocol.

(** *** Schemas and output dictionaries *)



Section Schema.

(** [ProtocolPath.full_path] and [ProtocolPath.from_string] of
    [workflow/utils.py] are not among the sources; the methods are modelled
    for any two such functions. *)
Variable full_path : ProtocolPath -> string.
Variable from_string : string -> result ProtocolPath.

(** The loop of [_get_output_dictionary]. *)
Fixpoint output_dictionary_loop (self : BaseProtocol) (outputs : list ProtocolPath)
    (return_dictionary : gmap string Value) : result (gmap string Value) :=
  match outputs with
  | [] => Ok return_dictionary
  | output_path :: rest =>
      match get_value self output_path with
      | Raise e => Raise e
      | Ok v => output_dictionary_loop self rest (<[full_path output_path := v]> return_dictionary)
      end
  end.

Definition _get_output_dictionary (self : BaseProtocol) : result (gmap string Value) :=
  output_dictionary_loop self (provided_outputs self) ∅.

(** [BaseProtocol.execute] *)
Definition execute (self : BaseProtocol) (directory available_resources : string)
    : result (gmap string Value) :=
  _get_output_dictionary self.





End Schema.

End ProtocolMethods.

(** ** Relations between the states of a call *)
Module Invariants.
Import Layers.

(** A request keeps its ids and everything that was recorded in it:
    [exceptions] and each list of [estimated_properties] and
    [unsuccessful_properties] are only appended to. *)
Definition request_grows (r r' : ServerEstimationRequest) : Prop :=
  request_id r' = request_id r /\
  force_field_id r' = force_field_id r /\
  exceptions r `prefix_of` exceptions r' /\
  (forall k, default [] (estimated_properties r !! k)
               `prefix_of` default [] (estimated_properties r' !! k)) /\
  (forall k, default [] (unsuccessful_properties r !! k)
               `prefix_of` default [] (unsuccessful_properties r' !! k)).

(** The stored object after [_process_results] has filled in a missing
    force field id from the request. *)
Definition backfilled (request_force_field_id : option string) (file : DataFile)
    : DataFile :=
  match file with
  | Decodable d =>
      Decodable
        match data_force_field_id d with
        | Some _ => d
        | None => {| data_force_field_id := request_force_field_id;
                     data_substance := data_substance d |}
        end
  | Undecodable why => Undecodable why
  end.

(** The calls that the storage backend receives for a list of data
    directories: one for each directory that exists, in order. *)
Fixpoint storage_calls (files : gmap string DataFile) (dirs : list string)
    : list (string * string) :=
  match dirs with
  | [] => []
  | d :: rest =>
      match files !! d with
      | Some (Decodable data) => (identifier (data_substance data), d) :: storage_calls files rest
      | _ => storage_calls files rest
      end
  end.

(** The number of properties held by a dictionary of the request. *)
Definition filed (d : gmap string (list PhysicalProperty)) : nat :=
  map_fold (fun _ properties n => (length properties + n)%nat) 0%nat d.

(** The number of properties that a request holds: those still queued,
    and those filed as estimated or as unsuccessful. *)
Definition accounted (r : ServerEstimationRequest) : nat :=
  (length (queued_properties r) + filed (estimated_properties r)
   + filed (unsuccessful_properties r))%nat.

End Invariants.

(** ** More concrete objects *)
Module MoreExamples.
Import Protocols ProtocolMethods Examples.

(** The output of an equilibration protocol, as a production protocol
    refers to it. *)
Definition equilibrated_coordinates : ProtocolPath :=
  {| property_name := "output_coordinate_file"; protocol_ids := ["npt_equilibration"] |}.

(** A simulation that takes its coordinates from another protocol and has
    produced its outputs. *)
Definition npt_production : BaseProtocol :=
  let self := simulation RunOpenMMSimulation "npt_production" 20 500 "box.pdb" in
  let self := setattr self "input_coordinate_file" (VPath equilibrated_coordinates) in
  let self := setattr self "output_coordinate_file" (VStr "production/output.pdb") in
  setattr self "trajectory_file_path" (VStr "production/trajectory.dcd").

(** Stand-ins for [ProtocolPath.replace_protocol], [ProtocolPath.full_path]
    and, on addresses without protocol ids, [ProtocolPath.from_string]. *)
Definition rename_in_path (path : ProtocolPath) (old_id new_id : string) : ProtocolPath :=
  {| property_name := property_name path;
     protocol_ids := map (fun protocol_id =>
                            if decide (protocol_id = old_id) then new_id else protocol_id)
                         (protocol_ids path) |}.

Definition show_path (path : ProtocolPath) : string :=
  foldr (fun protocol_id rest => protocol_id +:+ "/" +:+ rest)
        (property_name path) (protocol_ids path).



End MoreExamples.

(** * Properties *)

(** C8: registering a layer class whose name is already a key of
    [available_layers] raises the duplicate-registration [ValueError] and
    leaves the registry as it was; registering a class under a fresh name
    returns the class and makes it retrievable under its name, all other
    entries staying as they were. *)
Theorem register_calculation_layer_spec (cls : PyClass) (reg : gmap string PyClass) :
  (is_Some (reg !! __name__ cls) ->
     Layers.register_calculation_layer cls reg =
       (reg, Raise (ValueError ("The " +:+ __name__ cls +:+ " layer is already registered.")))) /\
  (reg !! __name__ cls = None ->
     exists reg',
       Layers.register_calculation_layer cls reg = (reg', Ok cls) /\
       reg' !! __name__ cls = Some cls /\
       (forall k, k <> __name__ cls -> reg' !! k = reg !! k)).
Proof.
  unfold Layers.register_calculation_layer. split.
  - intros Hsome. by rewrite decide_True.
  - intros Hnone. rewrite decide_False.
    + eexists. split; [reflexivity|]. split.
      * apply lookup_insert_eq.
      * intros k Hk. by apply lookup_insert_ne.
    + rewrite Hnone. by intros [? ?].
Qed.

Import Layers.

(** ** Aggregation of layer results *)

Section Aggregation.

Variable format_exception : PyExn -> string.

Lemma store_data_directories_frame (dirs : list string) (w : World) :
  request (store_data_directories w dirs).1 = request w /\
  callbacks (store_data_directories w dirs).1 = callbacks w.
Proof.
  revert w. induction dirs as [|d dirs IH]; intros w; simpl; [done|].
  destruct (files w !! d) as [[data|why]|]; simpl; [|done|apply IH].
  destruct (IH {| request := request w;
                  files := <[d:=Decodable
                               match data_force_field_id data with
                               | Some _ => data
                               | None => {| data_force_field_id := force_field_id (request w);
                                            data_substance := data_substance data |}
                               end]> (files w);
                  stored := stored w ++
                    [(identifier (data_substance
                               match data_force_field_id data with
                               | Some _ => data
                               | None => {| data_force_field_id := force_field_id (request w);
                                            data_substance := data_substance data |}
                               end), d)];
                  callbacks := callbacks w |}) as [IH1 IH2].
  by rewrite IH1, IH2.
Qed.

(** The first phase of an iteration only ever appends the exception of
    the result to the request. *)
Lemma record_and_store_frame (w : World) (r : CalculationLayerResult) :
  callbacks (record_and_store w r).1 = callbacks w /\
  queued_properties (request (record_and_store w r).1) = queued_properties (request w) /\
  estimated_properties (request (record_and_store w r).1)
    = estimated_properties (request w) /\
  unsuccessful_properties (request (record_and_store w r).1)
    = unsuccessful_properties (request w) /\
  exceptions (request (record_and_store w r).1)
    = exceptions (request w) ++ option_list (exception r).
Proof.
  unfold record_and_store.
  destruct (exception r) as [e|]; simpl; [done|].
  destruct (data_directories_to_store r) as [dirs|], (calculated_property r) as [c|];
    simpl; rewrite ?app_nil_r; try done.
  by destruct (store_data_directories_frame dirs w) as [-> ->].
Qed.

Lemma route_result_callbacks (w : World) (r : CalculationLayerResult) :
  callbacks (route_result w r).1 = callbacks w.
Proof.
  unfold route_result.
  destruct (remove_matches _ _) as [queue [e|]]; simpl; [done|].
  repeat case_decide; simpl; try done.
  destruct (calculated_property r) as [c|]; simpl; [|done].
  destruct (substance c) as [s|]; simpl; [|done].
  by destruct (exception r).
Qed.

Lemma process_output_callbacks (w : World) (o : ReturnedOutput) :
  callbacks (process_output w o).1 = callbacks w.
Proof.
  destruct o as [|r|repr]; simpl; try done.
  pose proof (record_and_store_frame w r) as (Hcb & _).
  destruct (record_and_store w r) as [w' [e|]]; simpl in *; [done|].
  by rewrite route_result_callbacks.
Qed.

Lemma process_outputs_callbacks (results : list ReturnedOutput) (w : World) :
  callbacks (process_outputs w results).1 = callbacks w.
Proof.
  revert w. induction results as [|o results IH]; intros w; simpl; [done|].
  pose proof (process_output_callbacks w o) as Hcb.
  destruct (process_output w o) as [w' [e|]]; simpl in *; [done|].
  by rewrite IH.
Qed.

Lemma try_body_completed (results : list ReturnedOutput) (w : World) :
  try_body (completed results) w = process_outputs w results.
Proof. reflexivity. Qed.

Lemma try_body_callbacks (results_future : Future) (w : World) :
  callbacks (try_body results_future w).1 = callbacks w.
Proof.
  unfold try_body.
  destruct (future_result results_future) as [results|e]; [|done].
  destruct (future_release results_future) as [e|]; [done|].
  apply process_outputs_callbacks.
Qed.

(** C2: whatever the future yields and whatever the results are, one
    call of [_process_results] adds exactly one call to those received by
    the callback, with the request as the routine leaves it; and when the
    guarded body raises an exception, the request is the one the body
    left, with the exception, wrapped into a [PropertyEstimatorException]
    that carries its formatted trace, appended to [exceptions]. The
    routine itself returns normally in every case. *)
Theorem process_results_callback_once (results_future : Future) (w : World) :
  let w' := _process_results format_exception results_future w in
  callbacks w' = callbacks w ++ [request w'] /\
  (forall w1 e, try_body results_future w = (w1, Some e) ->
     request w' = append_exception (request w1) (unhandled format_exception e) /\
     exceptions (request w') = exceptions (request w1) ++
       [{| directory := None;
           message := "An unhandled internal exception occurred: "
                        +:+ format_exception e |}]) /\
  (forall w1, try_body results_future w = (w1, None) -> request w' = request w1).
Proof.
  unfold _process_results.
  pose proof (try_body_callbacks results_future w) as Hcb.
  destruct (try_body results_future w) as [w1 [e|]]; simpl in *.
  - rewrite Hcb. split; [done|]. split.
    + intros w2 e2 [= <- <-]. done.
    + intros w2 [=].
  - rewrite Hcb. split; [done|]. split.
    + intros w2 e2 [=].
    + intros w2 [= <-]. done.
Qed.

(** [list.remove] passes over a prefix that does not hold the element. *)
Lemma list_remove_app (x : PhysicalProperty) (pre l : list PhysicalProperty) :
  x ∉ pre ->
  list_remove x (pre ++ x :: l) = Ok (pre ++ l).
Proof.
  induction pre as [|y pre IH]; intros Hnotin; simpl.
  - by rewrite decide_True.
  - apply not_elem_of_cons in Hnotin as [Hne Hnotin].
    rewrite decide_False by done. by rewrite IH.
Qed.

(** Removing, one by one, the queued properties that match a result
    leaves the properties that do not match it, in their order, and
    never raises. *)
Lemma remove_matches_filter (r : CalculationLayerResult)
    (queue pre : list PhysicalProperty) :
  Forall (fun x => ~ id_matches r x) pre ->
  remove_matches (filter (id_matches r) queue) (pre ++ queue)
    = (pre ++ filter (fun x => ~ id_matches r x) queue, None).
Proof.
  revert pre. induction queue as [|x queue IH]; intros pre Hpre; simpl.
  - done.
  - rewrite !filter_cons. destruct (decide (id_matches r x)) as [Hx|Hx].
    + rewrite decide_False by tauto. simpl.
      rewrite list_remove_app; [by apply IH|].
      intros Hin. rewrite Forall_forall in Hpre. by apply (Hpre x).
    + rewrite decide_True by done.
      replace (pre ++ x :: queue) with ((pre ++ [x]) ++ queue)
        by (by rewrite <- app_assoc).
      rewrite IH; [by rewrite <- app_assoc|].
      apply Forall_app. split; [done|]. by apply Forall_singleton.
Qed.

(** How the second phase of an iteration ends on a conflict. *)
Lemma route_result_conflict (w : World) (r : CalculationLayerResult) :
  (1 < length (filter (id_matches r) (queued_properties (request w))))%nat ->
  route_result w r =
    (set_request w (set_queued_properties (request w)
       (filter (fun x => ~ id_matches r x) (queued_properties (request w)))),
     Some (ValueError ("A property id (" +:+ str_of (property_id r)
                         +:+ ") conflict occurred."))).
Proof.
  intros Hlen. unfold route_result.
  pose proof (remove_matches_filter r (queued_properties (request w)) []) as Hrm.
  simpl in Hrm. rewrite Hrm by constructor.
  by rewrite decide_True.
Qed.

(** C10: when the property id of a result matches more than one queued
    property (and storing its data did not fail before), the iteration
    removes every matching entry from [queued_properties] and then raises
    the conflict error; the handler of [_process_results] appends the
    wrapped error and restores nothing: the request ends without any of
    the matching entries, although the property of the result was routed
    neither to [estimated_properties] nor to [unsuccessful_properties]. *)
Theorem conflict_removes_all_matches (w w1 : World) (r : CalculationLayerResult)
    (rest : list ReturnedOutput) :
  record_and_store w r = (w1, None) ->
  (1 < length (filter (id_matches r) (queued_properties (request w))))%nat ->
  let conflict := ValueError ("A property id (" +:+ str_of (property_id r)
                                +:+ ") conflict occurred.") in
  let w' := _process_results format_exception (completed (LayerResult r :: rest)) w in
  (exists w2, process_output w (LayerResult r) = (w2, Some conflict) /\
     queued_properties (request w2)
       = filter (fun x => ~ id_matches r x) (queued_properties (request w))) /\
  queued_properties (request w')
    = filter (fun x => ~ id_matches r x) (queued_properties (request w)) /\
  Forall (fun x => property_id r <> Some (prop_id x)) (queued_properties (request w')) /\
  estimated_properties (request w') = estimated_properties (request w) /\
  unsuccessful_properties (request w') = unsuccessful_properties (request w) /\
  exceptions (request w')
    = exceptions (request w) ++ option_list (exception r)
        ++ [unhandled format_exception conflict].
Proof.
  intros Hfirst Hlen conflict w'.
  pose proof (record_and_store_frame w r) as (_ & Hq & Hest & Hun & Hexc).
  rewrite Hfirst in Hq, Hest, Hun, Hexc. simpl in Hq, Hest, Hun, Hexc.
  assert (process_output w (LayerResult r)
          = (set_request w1 (set_queued_properties (request w1)
               (filter (fun x => ~ id_matches r x) (queued_properties (request w)))),
             Some conflict)) as Hout.
  { simpl. rewrite Hfirst. rewrite route_result_conflict by (by rewrite Hq).
    by rewrite Hq. }
  assert (queued_properties (request w')
          = filter (fun x => ~ id_matches r x) (queued_properties (request w))) as Hq'.
  { subst w'. unfold _process_results. rewrite !try_body_completed.
    cbn [process_outputs]. by rewrite Hout. }
  split; [eexists; split; [exact Hout|done]|].
  split; [done|]. split.
  { rewrite Hq'. apply Forall_forall. intros x Hx.
    by apply list_elem_of_filter in Hx as [Hx _]. }
  subst w'. unfold _process_results. rewrite !try_body_completed.
  cbn [process_outputs]. rewrite Hout. simpl.
  rewrite Hest, Hun, Hexc. by rewrite <- app_assoc.
Qed.

Lemma process_outputs_app (l1 l2 : list ReturnedOutput) (w : World) :
  process_outputs w (l1 ++ l2) =
    match process_outputs w l1 with
    | (w1, None) => process_outputs w1 l2
    | (w1, Some e) => (w1, Some e)
    end.
Proof.
  revert w. induction l1 as [|o l1 IH]; intros w; simpl; [done|].
  destruct (process_output w o) as [w1 [e|]]; [done|]. apply IH.
Qed.

(** An iteration on a result with several matches in the queue raises. *)
Lemma process_output_conflict_raises (w : World) (r : CalculationLayerResult) :
  (1 < length (filter (id_matches r) (queued_properties (request w))))%nat ->
  exists w2 e, process_output w (LayerResult r) = (w2, Some e).
Proof.
  intros Hlen. simpl.
  pose proof (record_and_store_frame w r) as (_ & Hq & _).
  destruct (record_and_store w r) as [w1 [e|]]; simpl in Hq; [by eauto|].
  rewrite route_result_conflict by (by rewrite Hq). by eauto.
Qed.

(** C1 (as amended): an output that is not a [CalculationLayerResult],
    or a result whose property id matches more than one queued property,
    makes its iteration raise; the exception leaves the loop, so that the
    fault is recorded against the request (wrapped, as the last entry of
    [exceptions]), the results before the faulting one keep their effect,
    no result after the faulting one is processed (the routine ends as if
    the list had stopped at the faulting output), and the callback is
    still called once. *)
Theorem fault_ends_the_batch (w w1 : World) (pre post : list ReturnedOutput)
    (bad : ReturnedOutput) :
  process_outputs w pre = (w1, None) ->
  ((exists repr, bad = OtherObject repr) \/
   (exists r, bad = LayerResult r /\
      (1 < length (filter (id_matches r) (queued_properties (request w1))))%nat)) ->
  let w' := _process_results format_exception (completed (pre ++ bad :: post)) w in
  exists w2 e,
    process_output w1 bad = (w2, Some e) /\
    request w' = append_exception (request w2) (unhandled format_exception e) /\
    w' = _process_results format_exception (completed (pre ++ [bad])) w /\
    callbacks w' = callbacks w ++ [request w'].
Proof.
  intros Hpre Hbad w'.
  assert (exists w2 e, process_output w1 bad = (w2, Some e)) as (w2 & e & Hout).
  { destruct Hbad as [[repr ->]|(r & -> & Hlen)].
    - simpl. by eauto.
    - by apply process_output_conflict_raises. }
  exists w2, e. split; [done|].
  assert (forall l, process_outputs w (pre ++ bad :: l) = (w2, Some e)) as Hall.
  { intros l. rewrite process_outputs_app, Hpre. simpl. by rewrite Hout. }
  subst w'. unfold _process_results. rewrite !try_body_completed. rewrite !Hall. simpl.
  repeat split; try done.
  pose proof (process_outputs_callbacks (pre ++ bad :: post) w) as Hcb.
  rewrite Hall in Hcb. simpl in Hcb. by rewrite Hcb.
Qed.

(** How the second phase of an iteration ends when exactly one queued
    property matches and the result carries a property with a substance:
    the match leaves the queue and the property of the result is filed
    under its substance, as estimated or as unsuccessful. *)
Lemma route_result_one_match (w : World) (r : CalculationLayerResult)
    (c : PhysicalProperty) (s : Substance) :
  length (filter (id_matches r) (queued_properties (request w))) = 1%nat ->
  calculated_property r = Some c ->
  substance c = Some s ->
  route_result w r =
    (let w1 := set_request w (set_queued_properties (request w)
                 (filter (fun x => ~ id_matches r x) (queued_properties (request w)))) in
     set_request w1
       (match exception r with
        | None => append_estimated (request w1) (identifier s) c
        | Some _ => append_unsuccessful (request w1) (identifier s) c
        end),
     None).
Proof.
  intros Hlen Hc Hs. unfold route_result.
  pose proof (remove_matches_filter r (queued_properties (request w)) []) as Hrm.
  simpl in Hrm. rewrite Hrm by constructor.
  rewrite Hlen. simpl. rewrite Hc, Hs. by destruct (exception r).
Qed.

(** C3: with [P1], [P2] and [P3] queued (distinct ids) on a request that
    holds nothing else yet, the results [successFor(P1)],
    [exceptionFor(P2)] (an exception together with a property object of
    P2's substance) and [None] are aggregated without any exception
    being raised: [P3] alone stays queued, the property of the first
    result is the one entry of [estimated_properties], under P1's
    substance, the property of the second the one entry of
    [unsuccessful_properties], under P2's substance, and [exceptions]
    holds the exception of the second result only. *)
Theorem three_results_scenario (w : World) (P1 P2 P3 C1 C2 : PhysicalProperty)
    (s1 s2 : Substance) (e2 : PropertyEstimatorException)
    (dirs1 dirs2 : option (list string)) :
  let success :=
    {| property_id := Some (prop_id P1); calculated_property := Some C1;
       exception := None; data_directories_to_store := dirs1 |} in
  let failure :=
    {| property_id := Some (prop_id P2); calculated_property := Some C2;
       exception := Some e2; data_directories_to_store := dirs2 |} in
  let results := [LayerResult success; LayerResult failure; PyNone] in
  let w' := _process_results format_exception (completed results) w in
  prop_id P1 <> prop_id P2 -> prop_id P1 <> prop_id P3 -> prop_id P2 <> prop_id P3 ->
  substance P1 = Some s1 -> substance C1 = Some s1 ->
  substance P2 = Some s2 -> substance C2 = Some s2 ->
  queued_properties (request w) = [P1; P2; P3] ->
  estimated_properties (request w) = ∅ ->
  unsuccessful_properties (request w) = ∅ ->
  exceptions (request w) = [] ->
  (record_and_store w success).2 = None ->
  (try_body (completed results) w).2 = None /\
  queued_properties (request w') = [P3] /\
  estimated_properties (request w') = {[ identifier s1 := [C1] ]} /\
  unsuccessful_properties (request w') = {[ identifier s2 := [C2] ]} /\
  exceptions (request w') = [e2] /\
  callbacks w' = callbacks w ++ [request w'].
Proof.
  intros success failure results w' H12 H13 H23 HsP1 HsC1 HsP2 HsC2 Hq Hest Hun Hexc Hstore.
  (* first result *)
  pose proof (record_and_store_frame w success) as (_ & Hq1 & Hest1 & Hun1 & Hexc1).
  destruct (record_and_store w success) as [wa raised] eqn:Hfirst.
  simpl in Hstore, Hq1, Hest1, Hun1, Hexc1. subst raised.
  rewrite Hq in Hq1. rewrite app_nil_r, Hexc in Hexc1.
  assert (filter (id_matches success) [P1; P2; P3] = [P1]) as Hm1.
  { rewrite !filter_cons, filter_nil. unfold id_matches. simpl.
    rewrite decide_True by done.
    rewrite decide_False by congruence. by rewrite decide_False by congruence. }
  assert (filter (fun x => ~ id_matches success x) [P1; P2; P3] = [P2; P3]) as Hn1.
  { rewrite !filter_cons, filter_nil. unfold id_matches. simpl.
    rewrite decide_False by (intros Hn; by apply Hn).
    rewrite decide_True by congruence. by rewrite decide_True by congruence. }
  assert (filter (id_matches failure) [P2; P3] = [P2]) as Hm2.
  { rewrite !filter_cons, filter_nil. unfold id_matches. simpl.
    rewrite decide_True by done. by rewrite decide_False by congruence. }
  assert (filter (fun x => ~ id_matches failure x) [P2; P3] = [P3]) as Hn2.
  { rewrite !filter_cons, filter_nil. unfold id_matches. simpl.
    rewrite decide_False by (intros Hn; by apply Hn).
    by rewrite decide_True by congruence. }
  assert (process_outputs w results =
            (set_request wa
               {| request_id := request_id (request wa);
                  force_field_id := force_field_id (request wa);
                  queued_properties := [P3];
                  estimated_properties := {[ identifier s1 := [C1] ]};
                  unsuccessful_properties := {[ identifier s2 := [C2] ]};
                  exceptions := [e2] |}, None)) as Hall.
  { unfold results. cbn [process_outputs process_output]. rewrite Hfirst.
    rewrite (route_result_one_match wa success C1 s1);
      [|by rewrite Hq1, Hm1|done|done].
    cbn zeta. rewrite Hq1, Hn1. simpl.
    unfold record_and_store. simpl.
    rewrite (route_result_one_match _ failure C2 s2);
      [|simpl; by rewrite Hm2|done|done].
    simpl. rewrite Hn2.
    unfold set_request, set_queued_properties, append_exception, append_estimated,
      append_unsuccessful. simpl.
    rewrite Hest1, Hun1, Hexc1, Hest, Hun. simpl.
    unfold dict_append. rewrite !lookup_empty. simpl.
    by rewrite !insert_empty. }
  pose proof (process_outputs_callbacks results w) as Hcb.
  subst w'. unfold _process_results. rewrite !try_body_completed. rewrite Hall in *. simpl in *.
  by rewrite Hcb.
Qed.

End Aggregation.

(** ** Protocols: access to values *)

Import Protocols.



(** ** Protocols: [can_merge] *)

Lemma locally_scoped_targets_self (self : BaseProtocol) (path : ProtocolPath) :
  locally_scoped self path = true -> targets_other self path = false.
Proof.
  unfold locally_scoped, targets_other.
  destruct (start_protocol path) as [start|]; [|done].
  rewrite andb_true_iff. intros [_ Hid]. by rewrite Hid.
Qed.

Lemma py_eq_truthy (a b : Value) :
  py_eq a b = true -> truthy a = truthy b.
Proof.
  unfold py_eq.
  destruct a as [|[]|x|x|x], b as [|[]|y|y|y]; simpl;
    rewrite ?bool_decide_eq_true; try done; try (by intros [= ->]); by intros <-.
Qed.

(** What a [True] from the loop of [can_merge] means for each input. *)
Lemma can_merge_inputs_true (self other : BaseProtocol) (inputs : list ProtocolPath) :
  can_merge_inputs self other inputs = Ok true ->
  forall path, path ∈ inputs -> exactly_equal_input self path ->
    path ∈ required_inputs other /\ values_agree self other path.
Proof.
  induction inputs as [|input_path rest IH]; intros Hres path Hin [Hlocal Htag].
  - by apply elem_of_nil in Hin.
  - unfold input_merge_behavior in Htag. simpl in Hres.
    apply elem_of_cons in Hin as [->|Hin].
    + rewrite (locally_scoped_targets_self _ _ Hlocal), Hlocal in Hres. simpl in Hres.
      destruct (class_getattr (type self) (property_name input_path)) as [d|]; [|done].
      rewrite Htag in Hres.
      destruct (bool_decide (input_path ∈ required_inputs other)) eqn:Hmem;
        simpl in Hres; [|done].
      apply bool_decide_eq_true in Hmem. split; [done|].
      destruct (get_value self input_path) as [v|] eqn:Hv; [|done].
      destruct (get_value other input_path) as [v'|] eqn:Hv'; [|done].
      destruct (py_eq v v') eqn:Heq; simpl in Hres; [|done].
      by exists v, v'.
    + apply IH; [|done|by split].
      repeat case_match; simplify_eq; done.
Qed.

(** When every locally scoped input is an attribute of the class and the
    [ExactlyEqual] ones agree, the loop returns [True]. *)
Lemma can_merge_inputs_agree (self other : BaseProtocol) (inputs : list ProtocolPath) :
  (forall path, path ∈ inputs -> locally_scoped self path = true ->
     is_Some (class_getattr (type self) (property_name path))) ->
  (forall path, path ∈ inputs -> exactly_equal_input self path ->
     path ∈ required_inputs other /\ values_agree self other path) ->
  can_merge_inputs self other inputs = Ok true.
Proof.
  induction inputs as [|input_path rest IH]; intros Hdecl Hagree; simpl; [done|].
  assert (can_merge_inputs self other rest = Ok true) as Hrest.
  { apply IH; intros path Hin; [apply Hdecl|apply Hagree]; by right. }
  destruct (targets_other self input_path); [done|].
  destruct (locally_scoped self input_path) eqn:Hlocal; simpl; [|done].
  destruct (Hdecl input_path) as [d Hd]; [by left|done|].
  rewrite Hd. destruct (merge_behavior d) as [[]|] eqn:Hmb; try done.
  destruct (Hagree input_path) as (Hmem & v & v' & Hv & Hv' & Heq).
  { by left. }
  { split; [done|]. unfold input_merge_behavior. by rewrite Hd. }
  rewrite bool_decide_eq_true_2 by done. simpl.
  by rewrite Hv, Hv', Heq.
Qed.

(** When the [ExactlyEqual] inputs have values on both sides and one of
    them differs, the loop returns [False]. *)
Lemma can_merge_inputs_differ (self other : BaseProtocol) (inputs : list ProtocolPath) :
  (forall path, path ∈ inputs -> locally_scoped self path = true ->
     is_Some (class_getattr (type self) (property_name path))) ->
  (forall path, path ∈ inputs -> exactly_equal_input self path ->
     values_agree self other path \/ values_differ self other path) ->
  (exists path, path ∈ inputs /\ exactly_equal_input self path /\
     values_differ self other path) ->
  can_merge_inputs self other inputs = Ok false.
Proof.
  induction inputs as [|input_path rest IH];
    intros Hdecl Hvalues (bad & Hbad & Hexact & Hdiffer).
  { by apply elem_of_nil in Hbad. }
  simpl.
  destruct (decide (exactly_equal_input self input_path)) as [Hexact'|Hnot].
  - pose proof Hexact' as [Hlocal Htag].
    rewrite (locally_scoped_targets_self _ _ Hlocal), Hlocal. simpl.
    unfold input_merge_behavior in Htag.
    destruct (class_getattr (type self) (property_name input_path)) as [d|] eqn:Hd;
      [|done].
    rewrite Htag.
    destruct (bool_decide (input_path ∈ required_inputs other)); simpl; [|done].
    destruct (Hvalues input_path) as [(v & v' & Hv & Hv' & Heq)|(v & v' & Hv & Hv' & Heq)];
      [by left|done| |]; rewrite Hv, Hv', Heq; simpl; [|done].
    apply elem_of_cons in Hbad as [->|Hbad].
    + destruct Hdiffer as (u & u' & Hu & Hu' & Hne). congruence.
    + apply IH; [by intros path Hin; apply Hdecl; right
                |by intros path Hin; apply Hvalues; right|by eauto].
  - assert (bad ∈ rest) as Hbad'.
    { apply elem_of_cons in Hbad as [->|Hbad]; [done|done]. }
    assert (can_merge_inputs self other rest = Ok false) as Hrest.
    { apply IH; [by intros path Hin; apply Hdecl; right
                |by intros path Hin; apply Hvalues; right|by eauto]. }
    destruct (targets_other self input_path); [done|].
    destruct (locally_scoped self input_path) eqn:Hlocal; simpl; [|done].
    destruct (Hdecl input_path) as [d Hd]; [by left|done|].
    rewrite Hd. destruct (merge_behavior d) as [[]|] eqn:Hmb; try done.
    exfalso. apply Hnot. split; [done|]. unfold input_merge_behavior. by rewrite Hd.
Qed.

Lemma dict_get_is_Some (d : list (string * ClassAttribute)) (key : string) :
  key ∈ map fst d -> is_Some (dict_get d key).
Proof.
  induction d as [|[k a] d IH]; simpl; intros Hin.
  - by apply elem_of_nil in Hin.
  - destruct (decide (k = key)); [by eexists|].
    apply elem_of_cons in Hin as [Heq|Hin]; [congruence|by apply IH].
Qed.

(** A name found by [find_types_with_decorator] is an attribute of the
    class. *)
Lemma find_types_class_getattr (cls : PyClass) (decorator_type key : string) :
  key ∈ find_types_with_decorator cls decorator_type ->
  is_Some (class_getattr cls key).
Proof.
  unfold find_types_with_decorator.
  induction cls as [|n d base IH]; simpl.
  - intros Hin. by apply elem_of_nil in Hin.
  - rewrite elem_of_app. intros [Hin|Hin].
    + assert (is_Some (dict_get d key)) as [a ->]; [|by eexists].
      apply dict_get_is_Some.
      apply list_elem_of_fmap in Hin as ([k a] & -> & Hin).
      apply list_elem_of_filter in Hin as [_ Hin].
      apply list_elem_of_fmap. by exists (k, a).
    + destruct (dict_get d key); [by eexists|by apply IH].
Qed.

Lemma declared_inputs_local (cls : PyClass) (path : ProtocolPath) :
  path ∈ declared_inputs cls ->
  protocol_ids path = [] /\ is_Some (class_getattr cls (property_name path)).
Proof.
  unfold declared_inputs. intros Hin.
  apply list_elem_of_fmap in Hin as (key & -> & Hin). split; [done|].
  by apply find_types_class_getattr in Hin.
Qed.

Lemma get_bases_head (cls : PyClass) : cls ∈ get_bases cls.
Proof. destruct cls; simpl; by left. Qed.

(** C4 (as amended): [can_merge] returns [True] only if [allow_merging]
    is enabled on [self] and [self] is an instance of the class of [other],
    that is, its class is that class or derives from it; [allow_merging]
    of [other] is looked at only through the loop over the inputs, where
    it is enabled too once [allow_merging] is a required input of [self]
    tagged [ExactlyEqual].  For every pair in which the class of [other] is
    not among the bases of the class of [self], [can_merge] returns
    [False], whatever the inputs hold. *)
Theorem can_merge_true_only_if (self other : BaseProtocol) :
  (can_merge self other = Ok true ->
     (exists allowed, attributes self !! "allow_merging" = Some allowed /\
        truthy allowed = true) /\
     type other ∈ get_bases (type self) /\
     (local_path "allow_merging" ∈ required_inputs self ->
      input_merge_behavior self (local_path "allow_merging") = Some ExactlyEqual ->
        exists allowed', attributes other !! "allow_merging" = Some allowed' /\
          truthy allowed' = true)) /\
  (type other ∉ get_bases (type self) ->
   is_Some (attributes self !! "allow_merging") ->
     can_merge self other = Ok false).
Proof.
  unfold can_merge, allow_merging, isinstance. split.
  - destruct (attributes self !! "allow_merging") as [allowed|] eqn:Hallowed; [|done].
    destruct (truthy allowed) eqn:Htruthy; simpl; [|done].
    destruct (bool_decide (type other ∈ get_bases (type self))) eqn:Hinst; simpl; [|done].
    apply bool_decide_eq_true in Hinst. intros Hloop.
    split; [by exists allowed|]. split; [done|].
    intros Hin Htag.
    destruct (can_merge_inputs_true self other _ Hloop (local_path "allow_merging") Hin)
      as (_ & v & v' & Hv & Hv' & Heq); [by split|].
    unfold get_value in Hv, Hv'. simpl in Hv, Hv'.
    rewrite Hallowed in Hv. injection Hv as <-.
    destruct (attributes other !! "allow_merging") as [allowed'|]; [|done].
    injection Hv' as <-. exists allowed'. split; [done|].
    by rewrite <- (py_eq_truthy _ _ Heq).
  - intros Hnot [allowed ->].
    destruct (truthy allowed); simpl; [|done].
    by rewrite bool_decide_eq_false_2.
Qed.

(** C5: for two protocols of the same class, whose required inputs are
    the ones [__init__] declares for that class, and with [allow_merging]
    enabled on [self]: if every locally scoped input tagged [ExactlyEqual]
    has equal values on both, [can_merge] returns [True]; if these inputs
    have values on both and some pair of values differs, [can_merge]
    returns [False]. *)
Theorem can_merge_exactly_equal_inputs (self other : BaseProtocol) :
  type self = type other ->
  required_inputs self = declared_inputs (type self) ->
  required_inputs other = declared_inputs (type other) ->
  (exists allowed, attributes self !! "allow_merging" = Some allowed /\
     truthy allowed = true) ->
  ((forall path, path ∈ required_inputs self -> exactly_equal_input self path ->
      values_agree self other path) ->
   can_merge self other = Ok true) /\
  ((forall path, path ∈ required_inputs self -> exactly_equal_input self path ->
      values_agree self other path \/ values_differ self other path) ->
   (exists path, path ∈ required_inputs self /\ exactly_equal_input self path /\
      values_differ self other path) ->
   can_merge self other = Ok false).
Proof.
  intros Htype Hself Hother (allowed & Hallowed & Htruthy).
  assert (forall path, path ∈ required_inputs self -> locally_scoped self path = true ->
            is_Some (class_getattr (type self) (property_name path))) as Hdecl.
  { intros path Hin _. rewrite Hself in Hin.
    by apply declared_inputs_local in Hin as [_ ?]. }
  unfold can_merge, allow_merging, isinstance.
  rewrite Hallowed, Htruthy, <- Htype. simpl.
  rewrite (bool_decide_eq_true_2 _ (get_bases_head (type self))). simpl.
  split.
  - intros Hagree. apply can_merge_inputs_agree; [done|].
    intros path Hin Hexact. split; [|by apply Hagree].
    by rewrite Hother, <- Htype, <- Hself.
  - intros Hvalues Hdiffer. by apply can_merge_inputs_differ.
Qed.

(** ** Protocols: [merge] *)





Lemma get_value_Ok (self : BaseProtocol) (path : ProtocolPath) (v : Value) :
  get_value self path = Ok v <->
  targets_other self path = false /\ attributes self !! property_name path = Some v.
Proof.
  unfold get_value. destruct (targets_other self path).
  - split; [done|]. by intros [? _].
  - destruct (attributes self !! property_name path) as [u|].
    + split; [by intros [= ->]|]. by intros [_ [= ->]].
    + split; [done|]. by intros [_ ?].
Qed.







(** ** Protocols: [set_uuid] *)

Lemma prefix_append (u s : string) : String.prefix u (u +:+ s) = true.
Proof.
  induction u as [|a u IH]; simpl; [by destruct s|].
  by destruct (Ascii.ascii_dec a a).
Qed.

Lemma find_from_unfold (s sub : string) (i : Z) :
  find_from s sub i =
    if String.prefix sub s then i
    else match s with
         | EmptyString => (-1)%Z
         | String _ s' => find_from s' sub (i + 1)
         end.
Proof. by destruct s. Qed.

(** [find] locates a string wherever it was put into another. *)
Lemma find_from_occurs (s1 u s2 : string) (i : Z) :
  (0 <= i)%Z -> (0 <= find_from (s1 +:+ u +:+ s2) u i)%Z.
Proof.
  revert i. induction s1 as [|c s1 IH]; intros i Hi; rewrite find_from_unfold.
  - change (EmptyString +:+ u +:+ s2) with (u +:+ s2). rewrite prefix_append. lia.
  - destruct (String.prefix u _); [lia|].
    change (String c s1 +:+ u +:+ s2) with (String c (s1 +:+ u +:+ s2)).
    apply IH. lia.
Qed.

Section SetUuidProperties.

Variable graph_append_uuid : string -> string -> string.
Variable path_append_uuid : ProtocolPath -> string -> ProtocolPath.

Lemma set_uuid_inputs_id (todo done : list ProtocolPath) (self : BaseProtocol)
    (value : string) :
  _id (set_uuid_inputs path_append_uuid self done todo value).1 = _id self.
Proof.
  revert done self. induction todo as [|input_path rest IH]; intros done self; simpl.
  - done.
  - destruct (get_value _ _) as [input_value|e]; simpl; [|done].
    rewrite IH. by destruct input_value.
Qed.

Lemma set_uuid_id (self : BaseProtocol) (value : string) :
  _id (set_uuid graph_append_uuid path_append_uuid self value).1 =
    if decide (0 <= find (_id self) value)%Z then _id self
    else graph_append_uuid (_id self) value.
Proof.
  unfold set_uuid. case_decide; [done|].
  pose proof (set_uuid_inputs_id (required_inputs self) []
                (with_id self (graph_append_uuid (_id self) value)) value) as Hid.
  simpl in Hid.
  destruct (set_uuid_inputs _ _ _ _ _) as [self1 [e|]]; simpl in *; done.
Qed.

(** C9: when the id of the protocol already contains the tag, [set_uuid]
    returns at once and leaves the protocol (its id, its required inputs
    and their values, its provided outputs) as it is.  Hence, as soon as
    the id that [graph.append_uuid] builds contains the tag, a second
    [set_uuid] with the same tag changes nothing and raises nothing: twice
    is the same as once. *)
Theorem set_uuid_idempotent (self : BaseProtocol) (value : string) :
  ((0 <= find (_id self) value)%Z ->
     set_uuid graph_append_uuid path_append_uuid self value = (self, None)) /\
  ((0 <= find (graph_append_uuid (_id self) value) value)%Z ->
     let once := (set_uuid graph_append_uuid path_append_uuid self value).1 in
     set_uuid graph_append_uuid path_append_uuid once value = (once, None)).
Proof.
  split.
  - intros Hfound. unfold set_uuid. by rewrite decide_True.
  - intros Htagged once.
    assert (0 <= find (_id once) value)%Z as Hfound.
    { subst once. rewrite set_uuid_id. by case_decide. }
    unfold set_uuid at 1. by rewrite decide_True.
Qed.

End SetUuidProperties.

(** ** The claims on concrete objects *)

Import Examples.

(** Case analysis on the membership of a path in a list that is given. *)
Ltac each_path Hin :=
  repeat (apply elem_of_cons in Hin as [->|Hin]);
  [..|by apply elem_of_nil in Hin].

Lemma register_calculation_layer_witness :
  register_calculation_layer DirectCalculationLayer
      {[ "DirectCalculationLayer" := DirectCalculationLayer ]}
    = ({[ "DirectCalculationLayer" := DirectCalculationLayer ]},
       Raise (ValueError "The DirectCalculationLayer layer is already registered.")) /\
  (exists reg',
     register_calculation_layer SimulationLayer
         {[ "DirectCalculationLayer" := DirectCalculationLayer ]} = (reg', Ok SimulationLayer) /\
     reg' !! "SimulationLayer" = Some SimulationLayer /\
     (forall k, k <> "SimulationLayer" ->
        reg' !! k
          = ({[ "DirectCalculationLayer" := DirectCalculationLayer ]}
               : gmap string PyClass) !! k)).
Proof.
  split.
  - apply (proj1 (register_calculation_layer_spec DirectCalculationLayer
                    {[ "DirectCalculationLayer" := DirectCalculationLayer ]})).
    exists DirectCalculationLayer. reflexivity.
  - apply (proj2 (register_calculation_layer_spec SimulationLayer
                    {[ "DirectCalculationLayer" := DirectCalculationLayer ]})).
    reflexivity.
Defined.

Lemma process_results_callback_once_witness :
  let w' := _process_results show_exception (failed_future (CollaboratorError "cancelled"))
              (world [P1]) in
  callbacks w' = [request w'] /\
  exceptions (request w') =
    [{| directory := None;
        message := "An unhandled internal exception occurred: Exception: cancelled" |}].
Proof.
  destruct (process_results_callback_once show_exception
              (failed_future (CollaboratorError "cancelled")) (world [P1])) as (Hcb & Hraised & _).
  split.
  - exact Hcb.
  - apply (Hraised (world [P1]) (CollaboratorError "cancelled")). reflexivity.
Defined.

(** C1, as the spec states it, fails: the result for [P1] comes after an
    output that is not a [CalculationLayerResult]; it is never looked at,
    [P1] stays queued and nothing is estimated, although that result on its
    own is routed. *)
Lemma later_results_are_dropped :
  let bad := OtherObject "42" in
  let w' := _process_results show_exception (completed [bad; LayerResult successFor_P1])
              (world [P1]) in
  queued_properties (request w') = [P1] /\
  estimated_properties (request w') = ∅ /\
  stored w' = [] /\
  length (exceptions (request w')) = 1%nat /\
  w' = _process_results show_exception (completed [bad]) (world [P1]) /\
  queued_properties (request (process_output (world [P1]) (LayerResult successFor_P1)).1) = [] /\
  estimated_properties (request (process_output (world [P1]) (LayerResult successFor_P1)).1)
    = {[ "O{1.0}" := [C1] ]}.
Proof. vm_compute. repeat split. Qed.

Lemma fault_ends_the_batch_witness :
  exists w2 e,
    process_output (world [P1; P2]) (OtherObject "42") = (w2, Some e) /\
    request (_process_results show_exception
               (completed ([PyNone] ++ OtherObject "42" :: [LayerResult successFor_P1]))
               (world [P1; P2]))
      = append_exception (request w2) (unhandled show_exception e) /\
    _process_results show_exception
        (completed ([PyNone] ++ OtherObject "42" :: [LayerResult successFor_P1])) (world [P1; P2])
      = _process_results show_exception (completed ([PyNone] ++ [OtherObject "42"])) (world [P1; P2]) /\
    callbacks (_process_results show_exception
                 (completed ([PyNone] ++ OtherObject "42" :: [LayerResult successFor_P1]))
                 (world [P1; P2]))
      = callbacks (world [P1; P2]) ++
          [request (_process_results show_exception
                      (completed ([PyNone] ++ OtherObject "42" :: [LayerResult successFor_P1]))
                      (world [P1; P2]))].
Proof.
  apply (fault_ends_the_batch show_exception (world [P1; P2]) (world [P1; P2])
           [PyNone] [LayerResult successFor_P1] (OtherObject "42")).
  - reflexivity.
  - left. exists "42". reflexivity.
Defined.

Lemma conflict_removes_all_matches_witness :
  let w' := _process_results show_exception
              (completed [LayerResult successFor_P1; LayerResult exceptionFor_P2])
              (world [P1; P2; P1_again]) in
  queued_properties (request w') = [P2] /\
  estimated_properties (request w') = ∅ /\
  unsuccessful_properties (request w') = ∅ /\
  exceptions (request w') =
    [unhandled show_exception (ValueError "A property id (P1) conflict occurred.")].
Proof.
  destruct (conflict_removes_all_matches show_exception
              (world [P1; P2; P1_again])
              (record_and_store (world [P1; P2; P1_again]) successFor_P1).1
              successFor_P1 [LayerResult exceptionFor_P2])
    as (_ & Hqueue & _ & Hest & Hun & Hexc).
  - reflexivity.
  - vm_compute. lia.
  - split; [exact Hqueue|]. split; [exact Hest|]. split; [exact Hun|exact Hexc].
Defined.

Lemma three_results_scenario_witness :
  let w' := _process_results show_exception
              (completed [LayerResult successFor_P1; LayerResult exceptionFor_P2; PyNone])
              (world [P1; P2; P3]) in
  (try_body (completed [LayerResult successFor_P1; LayerResult exceptionFor_P2; PyNone])
            (world [P1; P2; P3])).2 = None /\
  queued_properties (request w') = [P3] /\
  estimated_properties (request w') = {[ "O{1.0}" := [C1] ]} /\
  unsuccessful_properties (request w') = {[ "CO{1.0}" := [C2] ]} /\
  exceptions (request w') = [failed] /\
  callbacks w' = [request w'].
Proof.
  apply (three_results_scenario show_exception (world [P1; P2; P3]) P1 P2 P3 C1 C2
           water methanol failed
           (Some ["working/P1/data"; "working/P1/missing"]) (Some []));
    try reflexivity; discriminate.
Defined.

(** C4, as the spec states it, fails: a protocol of a class derived from
    [RunOpenMMSimulation] can be merged with a protocol of
    [RunOpenMMSimulation] itself, although the two classes differ. *)
Lemma can_merge_accepts_a_subclass :
  can_merge npt_restartable npt_a = Ok true /\
  bool_decide (type npt_restartable = type npt_a) = false /\
  can_merge npt_a npt_restartable = Ok false.
Proof. vm_compute. repeat split. Qed.



Lemma can_merge_true_only_if_witness :
  ((exists allowed, attributes npt_a !! "allow_merging" = Some allowed /\
      truthy allowed = true) /\
   type npt_b ∈ get_bases (type npt_a) /\
   (exists allowed', attributes npt_b !! "allow_merging" = Some allowed' /\
      truthy allowed' = true)) /\
  can_merge npt_a npt_restartable = Ok false.
Proof.
  split.
  - destruct (proj1 (can_merge_true_only_if npt_a npt_b)) as (Hself & Hinstance & Hother).
    + reflexivity.
    + split; [exact Hself|]. split; [exact Hinstance|].
      apply Hother; [|reflexivity].
      apply (bool_decide_unpack _). vm_compute. exact I.
  - apply (proj2 (can_merge_true_only_if npt_a npt_restartable)).
    + apply (bool_decide_unpack _). vm_compute. exact I.
    + exists (VBool true). reflexivity.
Defined.

Lemma can_merge_exactly_equal_inputs_witness :
  can_merge npt_a npt_b = Ok true /\ can_merge npt_a npt_c = Ok false.
Proof.
  split.
  - apply (proj1 (can_merge_exactly_equal_inputs npt_a npt_b
                    eq_refl eq_refl eq_refl
                    (ex_intro _ (VBool true) (conj eq_refl eq_refl)))).
    intros path Hin Hexact. vm_compute in Hin. each_path Hin;
      first [ by (do 2 eexists; split; [reflexivity|]; split; reflexivity)
            | (destruct Hexact as [_ Htag]; vm_compute in Htag; discriminate) ].
  - apply (proj2 (can_merge_exactly_equal_inputs npt_a npt_c
                    eq_refl eq_refl eq_refl
                    (ex_intro _ (VBool true) (conj eq_refl eq_refl)))).
    + intros path Hin Hexact. vm_compute in Hin. each_path Hin;
        first [ by (left; do 2 eexists; split; [reflexivity|]; split; reflexivity)
              | by (right; do 2 eexists; split; [reflexivity|]; split; reflexivity)
              | (destruct Hexact as [_ Htag]; vm_compute in Htag; discriminate) ].
    + exists (local_path "input_coordinate_file"). split.
      * apply (bool_decide_unpack _). vm_compute. exact I.
      * split; [split; reflexivity|].
        exists (VStr "box.pdb"), (VStr "other.pdb").
        split; [reflexivity|]. split; reflexivity.
Defined.


Lemma set_uuid_idempotent_witness :
  let tagged := simulation RunOpenMMSimulation "uuid-1|npt_a" 20 500 "box.pdb" in
  let once := (set_uuid tag_id tag_path npt_a "uuid-1").1 in
  set_uuid tag_id tag_path tagged "uuid-1" = (tagged, None) /\
  _id once = "uuid-1|npt_a" /\
  set_uuid tag_id tag_path once "uuid-1" = (once, None).
Proof.
  split; [|split].
  - apply (proj1 (set_uuid_idempotent tag_id tag_path
                    (simulation RunOpenMMSimulation "uuid-1|npt_a" 20 500 "box.pdb")
                    "uuid-1")).
    vm_compute. discriminate.
  - reflexivity.
  - apply (proj2 (set_uuid_idempotent tag_id tag_path npt_a "uuid-1")).
    vm_compute. discriminate.
Defined.

(** * Further properties *)

(** ** Aggregation: what a batch can and cannot do to the request *)

(** X1: a [None] among the results has no effect at all: the routine ends
    in the same world whether or not the entry is there. *)
Theorem none_entries_are_skipped (format_exception : PyExn -> string)
    (before after : list ReturnedOutput) (w : World) :
  _process_results format_exception (completed (before ++ PyNone :: after)) w
    = _process_results format_exception (completed (before ++ after)) w.
Proof.
  unfold _process_results. rewrite !try_body_completed, !process_outputs_app.
  destruct (process_outputs w before) as [w1 [e|]]; done.
Qed.

Lemma list_remove_sublist (x : PhysicalProperty) (l l' : list PhysicalProperty) :
  list_remove x l = Ok l' -> l' `sublist_of` l.
Proof.
  revert l'. induction l as [|y l IH]; intros l'; simpl; [done|].
  case_decide.
  - intros [= <-]. by apply sublist_cons.
  - destruct (list_remove x l) as [l''|]; [|done].
    intros [= <-]. apply sublist_skip. by apply IH.
Qed.

Lemma remove_matches_sublist (matches queue : list PhysicalProperty) :
  (remove_matches matches queue).1 `sublist_of` queue.
Proof.
  revert queue. induction matches as [|m ms IH]; intros queue; simpl; [done|].
  destruct (list_remove m queue) as [queue'|] eqn:Hrm; simpl; [|done].
  etransitivity; [apply IH|]. by eapply list_remove_sublist.
Qed.

Lemma route_result_queue_sublist (w : World) (r : CalculationLayerResult) :
  queued_properties (request (route_result w r).1)
    `sublist_of` queued_properties (request w).
Proof.
  unfold route_result.
  pose proof (remove_matches_sublist
                (filter (id_matches r) (queued_properties (request w)))
                (queued_properties (request w))) as Hsub.
  destruct (remove_matches _ _) as [queue [e|]]; simpl in *; [done|].
  repeat case_decide; simpl; try done.
  destruct (calculated_property r) as [c|]; simpl; [|done].
  destruct (substance c) as [s|]; simpl; [|done].
  by destruct (exception r).
Qed.

Lemma process_output_queue_sublist (w : World) (o : ReturnedOutput) :
  queued_properties (request (process_output w o).1)
    `sublist_of` queued_properties (request w).
Proof.
  destruct o as [|r|repr]; simpl; try done.
  pose proof (record_and_store_frame w r) as (_ & Hq & _).
  destruct (record_and_store w r) as [w1 [e|]]; simpl in *.
  - by rewrite Hq.
  - rewrite <- Hq. apply route_result_queue_sublist.
Qed.

Lemma process_outputs_queue_sublist (results : list ReturnedOutput) (w : World) :
  queued_properties (request (process_outputs w results).1)
    `sublist_of` queued_properties (request w).
Proof.
  revert w. induction results as [|o results IH]; intros w; simpl; [done|].
  pose proof (process_output_queue_sublist w o) as Hstep.
  destruct (process_output w o) as [w1 [e|]]; simpl in *; [done|].
  etransitivity; [apply IH|done].
Qed.

(** X2: whatever the future yields, the routine only ever takes properties
    out of [queued_properties]: the queue it leaves is the old one with
    some entries dropped, the others in their order. *)
Theorem queue_only_shrinks (format_exception : PyExn -> string)
    (results_future : Future) (w : World) :
  queued_properties (request (_process_results format_exception results_future w))
    `sublist_of` queued_properties (request w).
Proof.
  unfold _process_results.
  assert (queued_properties (request (try_body results_future w).1)
            `sublist_of` queued_properties (request w)) as Hbody.
  { unfold try_body. destruct (future_result results_future) as [results|e]; [|done].
    destruct (future_release results_future); [done|].
    apply process_outputs_queue_sublist. }
  destruct (try_body results_future w) as [w1 [e|]]; done.
Qed.

Import Invariants.

Lemma request_grows_refl (r : ServerEstimationRequest) : request_grows r r.
Proof. by repeat split. Qed.

Lemma request_grows_trans (r1 r2 r3 : ServerEstimationRequest) :
  request_grows r1 r2 -> request_grows r2 r3 -> request_grows r1 r3.
Proof.
  intros (Hid & Hff & Hexc & Hest & Hun) (Hid' & Hff' & Hexc' & Hest' & Hun').
  split; [congruence|]. split; [congruence|].
  split; [by etransitivity|].
  split; intros k; etransitivity; eauto.
Qed.

Lemma dict_append_grows (d : gmap string (list PhysicalProperty)) (key k : string)
    (v : PhysicalProperty) :
  default [] (d !! k) `prefix_of` default [] (dict_append d key v !! k).
Proof.
  unfold dict_append. destruct (decide (key = k)) as [->|Hne].
  - rewrite lookup_insert_eq. simpl. by apply prefix_app_r.
  - by rewrite lookup_insert_ne.
Qed.

Lemma record_and_store_grows (w : World) (r : CalculationLayerResult) :
  request_grows (request w) (request (record_and_store w r).1).
Proof.
  unfold record_and_store. destruct (exception r) as [e|]; simpl.
  - repeat split; try done. by apply prefix_app_r.
  - destruct (data_directories_to_store r) as [dirs|], (calculated_property r) as [c|];
      simpl; try apply request_grows_refl.
    destruct (store_data_directories_frame dirs w) as [-> _]. apply request_grows_refl.
Qed.

Lemma route_result_grows (w : World) (r : CalculationLayerResult) :
  request_grows (request w) (request (route_result w r).1).
Proof.
  unfold route_result.
  destruct (remove_matches _ _) as [queue [e|]]; simpl; [by repeat split|].
  repeat case_decide; simpl; try (by repeat split).
  destruct (calculated_property r) as [c|]; simpl; [|by repeat split].
  destruct (substance c) as [s|]; simpl; [|by repeat split].
  destruct (exception r); simpl.
  - split; [done|]. split; [done|]. split; [done|]. split; [done|].
    intros k. apply dict_append_grows.
  - split; [done|]. split; [done|]. split; [done|]. split; [|done].
    intros k. apply dict_append_grows.
Qed.

Lemma process_output_grows (w : World) (o : ReturnedOutput) :
  request_grows (request w) (request (process_output w o).1).
Proof.
  destruct o as [|r|repr]; simpl; try apply request_grows_refl.
  pose proof (record_and_store_grows w r) as Hfirst.
  destruct (record_and_store w r) as [w1 [e|]]; simpl in *; [done|].
  eapply request_grows_trans; [done|]. apply route_result_grows.
Qed.

Lemma process_outputs_grows (results : list ReturnedOutput) (w : World) :
  request_grows (request w) (request (process_outputs w results).1).
Proof.
  revert w. induction results as [|o results IH]; intros w; simpl.
  - apply request_grows_refl.
  - pose proof (process_output_grows w o) as Hstep.
    destruct (process_output w o) as [w1 [e|]]; simpl in *; [done|].
    eapply request_grows_trans; [done|]. apply IH.
Qed.

Lemma process_results_grows (format_exception : PyExn -> string)
    (results_future : Future) (w : World) :
  request_grows (request w) (request (_process_results format_exception results_future w)).
Proof.
  unfold _process_results.
  assert (request_grows (request w) (request (try_body results_future w).1)) as Hbody.
  { unfold try_body. destruct (future_result results_future) as [results|e];
      [|apply request_grows_refl].
    destruct (future_release results_future); [apply request_grows_refl|].
    apply process_outputs_grows. }
  destruct (try_body results_future w) as [w1 [e|]]; simpl in *; [|done].
  eapply request_grows_trans; [done|].
  repeat split; try done. by apply prefix_app_r.
Qed.

(** X3: the routine never rewrites the record of earlier failures: the
    request keeps its id and its force field id, and the exceptions it held
    are the first entries of [exceptions] afterwards, in their order. *)
Theorem exceptions_only_grow (format_exception : PyExn -> string)
    (results_future : Future) (w : World) :
  let w' := _process_results format_exception results_future w in
  request_id (request w') = request_id (request w) /\
  force_field_id (request w') = force_field_id (request w) /\
  exceptions (request w) `prefix_of` exceptions (request w').
Proof.
  destruct (process_results_grows format_exception results_future w)
    as (Hid & Hff & Hexc & _). done.
Qed.

(** X4: the routine never loses a property that was filed: under every
    substance id, the properties held by [estimated_properties] and by
    [unsuccessful_properties] are the first entries of the list held
    afterwards (an id without entry counting as the empty list). *)
Theorem filed_properties_are_kept (format_exception : PyExn -> string)
    (results_future : Future) (w : World) (substance_id : string) :
  let w' := _process_results format_exception results_future w in
  default [] (estimated_properties (request w) !! substance_id)
    `prefix_of` default [] (estimated_properties (request w') !! substance_id) /\
  default [] (unsuccessful_properties (request w) !! substance_id)
    `prefix_of` default [] (unsuccessful_properties (request w') !! substance_id).
Proof.
  destruct (process_results_grows format_exception results_future w)
    as (_ & _ & _ & Hest & Hun). done.
Qed.

Lemma set_request_same_queue (w : World) :
  set_request w (set_queued_properties (request w) (queued_properties (request w))) = w.
Proof. by destruct w as [[] ? ? ?]. Qed.

Lemma filter_id_matches_nil (r : CalculationLayerResult) (queue : list PhysicalProperty) :
  Forall (fun x => property_id r <> Some (prop_id x)) queue ->
  filter (id_matches r) queue = [].
Proof.
  induction 1 as [|x queue Hx _ IH]; [done|].
  rewrite filter_cons, decide_False by done. exact IH.
Qed.

(** X5: a result for a property that is not in the queue is no error and
    is not ignored either: its iteration does what the first phase does
    (the exception it carries is appended to the request, or its data
    directories are stored), and changes nothing else. *)
Theorem result_for_unqueued_property (w : World) (r : CalculationLayerResult) :
  Forall (fun x => property_id r <> Some (prop_id x)) (queued_properties (request w)) ->
  process_output w (LayerResult r) = record_and_store w r.
Proof.
  intros Hnone. simpl.
  pose proof (record_and_store_frame w r) as (_ & Hq & _).
  destruct (record_and_store w r) as [w1 [e|]]; simpl in Hq; [done|].
  unfold route_result. rewrite Hq, (filter_id_matches_nil r _ Hnone). simpl.
  by rewrite <- Hq, set_request_same_queue.
Qed.

Lemma result_for_unqueued_property_witness :
  process_output (world [P2; P3]) (LayerResult successFor_P1)
    = record_and_store (world [P2; P3]) successFor_P1.
Proof.
  apply (result_for_unqueued_property (world [P2; P3]) successFor_P1).
  repeat constructor; discriminate.
Defined.

Lemma length_filter_split (r : CalculationLayerResult) (queue : list PhysicalProperty) :
  (length (filter (id_matches r) queue)
   + length (filter (fun x => ~ id_matches r x) queue))%nat = length queue.
Proof.
  induction queue as [|x queue IH]; [done|].
  rewrite !filter_cons. destruct (decide (id_matches r x)).
  - rewrite decide_False by tauto. simpl. lia.
  - rewrite decide_True by done. simpl. lia.
Qed.

(** X6: when exactly one queued property matches a result that carries no
    property object, the match leaves the queue although nothing is filed
    for it: it ends up neither estimated nor unsuccessful, with or without
    an exception in the result, and no error is raised. *)
Theorem result_without_property_is_dequeued (w : World) (r : CalculationLayerResult) :
  calculated_property r = None ->
  length (filter (id_matches r) (queued_properties (request w))) = 1%nat ->
  exists w',
    process_output w (LayerResult r) = (w', None) /\
    queued_properties (request w')
      = filter (fun x => ~ id_matches r x) (queued_properties (request w)) /\
    length (queued_properties (request w'))
      = (length (queued_properties (request w)) - 1)%nat /\
    estimated_properties (request w') = estimated_properties (request w) /\
    unsuccessful_properties (request w') = unsuccessful_properties (request w) /\
    exceptions (request w') = exceptions (request w) ++ option_list (exception r).
Proof.
  intros Hnone Hone.
  pose proof (record_and_store_frame w r) as (_ & Hq & Hest & Hun & Hexc).
  assert ((record_and_store w r).2 = None) as Hfirst.
  { unfold record_and_store. rewrite Hnone.
    destruct (exception r); [done|]. by destruct (data_directories_to_store r). }
  simpl. destruct (record_and_store w r) as [w1 raised]. simpl in *. subst raised.
  unfold route_result.
  pose proof (remove_matches_filter r (queued_properties (request w1)) []) as Hrm.
  simpl in Hrm. rewrite Hrm by constructor. rewrite Hq, Hone, Hnone. simpl.
  eexists. split; [reflexivity|]. simpl.
  split; [done|]. split; [|done].
  pose proof (length_filter_split r (queued_properties (request w))) as Hlen.
  rewrite Hone in Hlen. lia.
Qed.

Lemma result_without_property_is_dequeued_witness :
  exists w',
    process_output (world [P1; P2])
      (LayerResult {| property_id := Some "P2"; calculated_property := None;
                      exception := Some failed;
                      data_directories_to_store := Some [] |}) = (w', None) /\
    queued_properties (request w') = [P1] /\
    estimated_properties (request w') = ∅ /\
    unsuccessful_properties (request w') = ∅ /\
    exceptions (request w') = [failed].
Proof.
  destruct (result_without_property_is_dequeued (world [P1; P2])
              {| property_id := Some "P2"; calculated_property := None;
                 exception := Some failed;
                 data_directories_to_store := Some [] |})
    as (w' & Hout & Hq & _ & Hest & Hun & Hexc); [reflexivity|reflexivity|].
  exists w'. split; [exact Hout|]. split; [exact Hq|].
  split; [exact Hest|]. split; [exact Hun|exact Hexc].
Defined.

(** ** Aggregation: the data directories *)

Lemma backfilled_again (ff : option string) (file : DataFile) :
  backfilled ff (backfilled ff file) = backfilled ff file.
Proof.
  destruct file as [[[stored_ff|] s]|why]; simpl; try done. by destruct ff.
Qed.

Lemma storage_calls_backfilled (ff : option string) (files : gmap string DataFile)
    (d : string) (file : DataFile) (dirs : list string) :
  files !! d = Some file ->
  storage_calls (<[d := backfilled ff file]> files) dirs = storage_calls files dirs.
Proof.
  intros Hd. induction dirs as [|d' dirs IH]; simpl; [done|].
  destruct (decide (d = d')) as [<-|Hne].
  - rewrite lookup_insert_eq, Hd, IH.
    by destruct file as [[[stored_ff|] s]|why].
  - by rewrite lookup_insert_ne, IH by done.
Qed.

(** X7: when none of the listed data directories holds an undecodable
    [data.json], the storing loop raises nothing and leaves the request
    alone; every listed directory that exists has its stored object written
    back with the force field id it had, or with the one of the request
    when it had none (and with its substance as it was); no other directory
    is touched; and the storage backend receives one call for each listed
    directory that exists, in order, after the calls it had received. *)
Theorem store_data_directories_spec (dirs : list string) (w : World) :
  Forall (fun d => forall why, files w !! d <> Some (Undecodable why)) dirs ->
  exists w',
    store_data_directories w dirs = (w', None) /\
    request w' = request w /\
    (forall d, files w' !! d =
       if decide (d ∈ dirs)
       then backfilled (force_field_id (request w)) <$> files w !! d
       else files w !! d) /\
    stored w' = stored w ++ storage_calls (files w) dirs.
Proof.
  revert w. induction dirs as [|d dirs IH]; intros w Hok.
  { exists w. simpl. rewrite app_nil_r. do 2 (split; [done|]). split; [|done].
    intros d. destruct (decide (d ∈ [])) as [Hin|]; [by apply elem_of_nil in Hin|done]. }
  apply Forall_cons in Hok as [Hd Hok]. simpl.
  destruct (files w !! d) as [[data|why]|] eqn:Hfile; [| by destruct (Hd why) |].
  - set (data' := match data_force_field_id data with
                  | Some _ => data
                  | None => {| data_force_field_id := force_field_id (request w);
                               data_substance := data_substance data |}
                  end).
    assert (Decodable data' = backfilled (force_field_id (request w)) (Decodable data))
      as Hdata' by done.
    assert (identifier (data_substance data') = identifier (data_substance data)) as Hsame.
    { subst data'. by destruct (data_force_field_id data). }
    destruct (IH {| request := request w;
                    files := <[d := Decodable data']> (files w);
                    stored := stored w ++ [(identifier (data_substance data'), d)];
                    callbacks := callbacks w |}) as (w' & Hrun & Hreq & Hfiles & Hstored).
    { simpl. eapply Forall_impl; [exact Hok|]. intros d' Hd' why. simpl in *.
      destruct (decide (d = d')) as [<-|Hne].
      - by rewrite lookup_insert_eq.
      - rewrite lookup_insert_ne by done. apply Hd'. }
    exists w'. split; [exact Hrun|]. split; [done|]. simpl in *. split.
    + intros d'. rewrite Hfiles. destruct (decide (d = d')) as [<-|Hne].
      * rewrite lookup_insert_eq, Hfile.
        rewrite (decide_True (P := d ∈ d :: dirs)) by left.
        cbn [fmap option_fmap option_map].
        case_decide; [|by rewrite Hdata'].
        f_equal. exact (backfilled_again (force_field_id (request w)) (Decodable data)).
      * rewrite lookup_insert_ne by done.
        destruct (decide (d' ∈ dirs)) as [Hin|Hnotin].
        -- by rewrite decide_True by (by right).
        -- rewrite decide_False; [done|].
           intros Hin. apply elem_of_cons in Hin as [->|Hin]; done.
    + pose proof (storage_calls_backfilled (force_field_id (request w)) (files w) d
                    (Decodable data) dirs Hfile) as Hcalls.
      change (backfilled (force_field_id (request w)) (Decodable data))
        with (Decodable data') in Hcalls.
      by rewrite Hstored, Hcalls, Hsame, <- app_assoc.
  - destruct (IH w Hok) as (w' & Hrun & Hreq & Hfiles & Hstored).
    exists w'. split; [exact Hrun|]. split; [done|]. split; [|done].
    intros d'. rewrite Hfiles. destruct (decide (d = d')) as [<-|Hne].
    + rewrite Hfile. rewrite (decide_True (P := d ∈ d :: dirs)) by left.
      by case_decide.
    + destruct (decide (d' ∈ dirs)) as [Hin|Hnotin].
      * by rewrite decide_True by (by right).
      * rewrite decide_False; [done|].
        intros Hin. apply elem_of_cons in Hin as [->|Hin]; done.
Qed.

Lemma store_data_directories_spec_witness :
  exists w',
    store_data_directories (world [P1]) ["working/P1/data"; "working/P1/missing"]
      = (w', None) /\
    files w' !! "working/P1/data"
      = Some (Decodable {| data_force_field_id := Some "smirnoff99Frosst";
                           data_substance := water |}) /\
    files w' !! "working/P1/missing" = None /\
    stored w' = [("O{1.0}", "working/P1/data")].
Proof.
  destruct (store_data_directories_spec ["working/P1/data"; "working/P1/missing"]
              (world [P1])) as (w' & Hrun & _ & Hfiles & Hstored).
  - repeat constructor; intros why; vm_compute; discriminate.
  - exists w'. split; [exact Hrun|]. split; [|split].
    + rewrite (Hfiles "working/P1/data"). reflexivity.
    + rewrite (Hfiles "working/P1/missing"). reflexivity.
    + exact Hstored.
Defined.




(** ** The registry of calculation layers *)

(** X9: registration never replaces or removes an entry, and it keeps
    every key of [available_layers] equal to the name of the class
    registered under it, whether the registration succeeds or raises. *)
Theorem registry_keeps_names (cls : PyClass) (reg : gmap string PyClass) :
  (forall k c, reg !! k = Some c -> __name__ c = k) ->
  let reg' := (register_calculation_layer cls reg).1 in
  reg ⊆ reg' /\ (forall k c, reg' !! k = Some c -> __name__ c = k).
Proof.
  intros Hnames. unfold register_calculation_layer.
  case_decide as Hpresent; simpl; [done|].
  assert (reg !! __name__ cls = None) as Hfresh.
  { destruct (reg !! __name__ cls) eqn:Hl; [|done]. destruct Hpresent. by eexists. }
  split; [by apply insert_subseteq|].
  intros k c Hk. destruct (decide (__name__ cls = k)) as [<-|Hne].
  - rewrite lookup_insert_eq in Hk. by injection Hk as <-.
  - rewrite lookup_insert_ne in Hk by done. by apply Hnames.
Qed.

Lemma registry_keeps_names_witness :
  let reg : gmap string PyClass := {[ "DirectCalculationLayer" := DirectCalculationLayer ]} in
  let reg' := (register_calculation_layer SimulationLayer reg).1 in
  reg ⊆ reg' /\ (forall k c, reg' !! k = Some c -> __name__ c = k).
Proof.
  apply (registry_keeps_names SimulationLayer
           {[ "DirectCalculationLayer" := DirectCalculationLayer ]}).
  intros k c Hk. apply lookup_singleton_Some in Hk as [<- <-]. reflexivity.
Defined.

(** ** Protocols: dependencies *)

Import ProtocolMethods.

Lemma dependencies_loop_spec (self : BaseProtocol) (inputs : list ProtocolPath) :
  forall found,
  NoDup found ->
  (forall path, path ∈ inputs -> is_ok (get_value self path) = true) ->
  exists deps,
    dependencies_loop self inputs found = Ok deps /\
    NoDup deps /\
    (forall d, d ∈ deps <->
       d ∈ found \/ exists path, path ∈ inputs /\ get_value self path = Ok (VPath d)).
Proof.
  induction inputs as [|input_path rest IH]; intros found Hnodup Hok; simpl.
  - exists found. split; [done|]. split; [done|]. intros d. split; [by left|].
    intros [?|(path & Hin & _)]; [done|]. by apply elem_of_nil in Hin.
  - assert (forall path, path ∈ rest -> is_ok (get_value self path) = true) as Hrest.
    { intros path Hin. apply Hok. by right. }
    assert (is_ok (get_value self input_path) = true) as Hhead by (apply Hok; left).
    destruct (get_value self input_path) as [v|e] eqn:Hv; [|done].
    assert (forall found', NoDup found' ->
              (forall d, d ∈ found' <-> d ∈ found \/ v = VPath d) ->
              exists deps,
                dependencies_loop self rest found' = Ok deps /\ NoDup deps /\
                (forall d, d ∈ deps <->
                   d ∈ found \/
                   exists path, path ∈ input_path :: rest /\
                     get_value self path = Ok (VPath d))) as Hstep.
    { intros found' Hnodup' Hfound'.
      destruct (IH found' Hnodup' Hrest) as (deps & Hrun & Hdeps & Hiff).
      exists deps. split; [done|]. split; [done|]. intros d. rewrite Hiff, Hfound'.
      split.
      - intros [[? | ->]|(path & Hin & Hpath)]; [by left| |].
        + right. exists input_path. split; [left|done].
        + right. exists path. split; [by right|done].
      - intros [?|(path & Hin & Hpath)]; [by left; left|].
        apply elem_of_cons in Hin as [->|Hin].
        + left. right. congruence.
        + right. by exists path. }
    destruct v as [| | | |input_value];
      try (apply Hstep; [done|]; intros d; split; [by left|]; by intros [?|?]).
    case_bool_decide as Hmem.
    + apply Hstep; [done|]. intros d. split; [by left|].
      intros [?|[= ->]]; done.
    + apply Hstep.
      * apply NoDup_app. split; [done|]. split; [|apply NoDup_singleton].
        intros x Hx Hx'. apply list_elem_of_singleton in Hx' as ->. done.
      * intros d. rewrite elem_of_app, list_elem_of_singleton.
        split; intros [?|?]; try (by left); right; congruence.
Qed.

(** X10: when every required input can be read, [dependencies] returns
    the references that the inputs hold, and nothing else, without
    repetition: a path is in the list exactly if it is the value of some
    required input.  When an input cannot be read, it raises. *)
Theorem dependencies_spec (self : BaseProtocol) :
  ((forall path, path ∈ required_inputs self -> is_ok (get_value self path) = true) ->
   exists deps,
     dependencies self = Ok deps /\
     NoDup deps /\
     (forall d, d ∈ deps <->
        exists path, path ∈ required_inputs self /\ get_value self path = Ok (VPath d))) /\
  (forall path, path ∈ required_inputs self -> is_ok (get_value self path) = false ->
     is_ok (dependencies self) = false).
Proof.
  split.
  - intros Hok.
    destruct (dependencies_loop_spec self (required_inputs self) [] (NoDup_nil_2) Hok)
      as (deps & Hrun & Hnodup & Hiff).
    exists deps. split; [done|]. split; [done|]. intros d. rewrite Hiff.
    split; [|by right]. intros [Hin|?]; [|done]. by apply elem_of_nil in Hin.
  - unfold dependencies. generalize (@nil ProtocolPath).
    induction (required_inputs self) as [|input_path rest IH]; intros found path Hin Hbad.
    + by apply elem_of_nil in Hin.
    + simpl. apply elem_of_cons in Hin as [->|Hin].
      * by destruct (get_value self input_path).
      * destruct (get_value self input_path) as [[| | | |input_value]|e]; try done;
          try (by eapply IH). case_bool_decide; by eapply IH.
Qed.

(** ** Protocols: replace_protocol *)

(** The test of [replace_protocol] comes down to this: the value of an
    input is left alone exactly when the path of the input carries a
    protocol id, be it the id of the protocol itself. *)
Lemma keeps_input_value_spec (self : BaseProtocol) (input_path : ProtocolPath) :
  keeps_input_value self input_path = bool_decide (protocol_ids input_path <> []).
Proof.
  unfold keeps_input_value, start_protocol, last_protocol.
  destruct (protocol_ids input_path) as [|protocol_id ids]; simpl.
  - reflexivity.
  - reflexivity.
Qed.

Section ReplaceProtocolProperties.

Variable path_replace_protocol : ProtocolPath -> string -> string -> ProtocolPath.
Variables old_id new_id : string.

Let renamed (path : ProtocolPath) : ProtocolPath :=
  path_replace_protocol path old_id new_id.

Lemma replace_protocol_inputs_spec (todo : list ProtocolPath) :
  forall (done : list ProtocolPath) (current : BaseProtocol),
  (forall path, path ∈ todo -> protocol_ids (renamed path) = [] ->
     is_Some (attributes current !! property_name (renamed path))) ->
  exists current',
    replace_protocol_inputs path_replace_protocol current done todo old_id new_id
      = (current', None) /\
    _id current' = _id current /\
    type current' = type current /\
    provided_outputs current' = provided_outputs current /\
    required_inputs current' = done ++ map renamed todo /\
    (forall name,
       attributes current' !! name = attributes current !! name \/
       (exists q q',
          attributes current !! name = Some (VPath q) /\
          attributes current' !! name = Some (VPath q') /\
          exists path, path ∈ todo /\ protocol_ids (renamed path) = [] /\
            property_name (renamed path) = name)).
Proof.
  induction todo as [|input_path rest IH]; intros done current Hattrs.
  { exists (with_required_inputs current done). simpl. rewrite app_nil_r.
    do 5 (split; [done|]). intros name. by left. }
  cbn [replace_protocol_inputs]. fold (renamed input_path).
  set (current1 := with_required_inputs current (done ++ renamed input_path :: rest)).
  rewrite keeps_input_value_spec.
  assert (forall (current2 : BaseProtocol),
            _id current2 = _id current -> type current2 = type current ->
            provided_outputs current2 = provided_outputs current ->
            (forall name,
               attributes current2 !! name = attributes current !! name \/
               (exists q q', attributes current !! name = Some (VPath q) /\
                  attributes current2 !! name = Some (VPath q') /\
                  protocol_ids (renamed input_path) = [] /\
                  property_name (renamed input_path) = name)) ->
            exists current',
              replace_protocol_inputs path_replace_protocol current2
                (done ++ [renamed input_path]) rest old_id new_id = (current', None) /\
              _id current' = _id current /\
              type current' = type current /\
              provided_outputs current' = provided_outputs current /\
              required_inputs current' = done ++ map renamed (input_path :: rest) /\
              (forall name,
                 attributes current' !! name = attributes current !! name \/
                 (exists q q',
                    attributes current !! name = Some (VPath q) /\
                    attributes current' !! name = Some (VPath q') /\
                    exists path, path ∈ input_path :: rest /\
                      protocol_ids (renamed path) = [] /\
                      property_name (renamed path) = name))) as Hcontinue.
  { intros current2 Hid Hty Hout Hrel.
    destruct (IH (done ++ [renamed input_path]) current2)
      as (current' & Hrun & Hid' & Hty' & Hout' & Hreq' & Hrel').
    { intros path Hin Hlocal.
      destruct (Hattrs path) as [v Hv]; [by right|done|].
      destruct (Hrel (property_name (renamed path))) as [->|(q & q' & _ & -> & _)];
        by eauto. }
    exists current'. split; [done|]. split; [congruence|]. split; [congruence|].
    split; [congruence|]. split; [by rewrite Hreq', <- app_assoc|].
    intros name.
    destruct (Hrel' name) as [Hsame|(q & q' & Hq & Hq' & path & Hin & Hlocal & Hname)];
      destruct (Hrel name) as [Hsame2|(p & p' & Hp & Hp' & Hlocal2 & Hname2)].
    - left. congruence.
    - right. exists p, p'. split; [done|]. split; [congruence|].
      exists input_path. split; [left|done].
    - right. exists q, q'. split; [congruence|]. split; [done|].
      exists path. split; [by right|done].
    - right. exists p, q'. split; [done|]. split; [done|].
      exists input_path. split; [left|done]. }
  case_bool_decide as Hids.
  - apply Hcontinue; try done. intros name. by left.
  - assert (protocol_ids (renamed input_path) = []) as Hlocal.
    { destruct (protocol_ids (renamed input_path)); [done|]. by destruct Hids. }
    destruct (Hattrs input_path) as [v Hv]; [left|done|].
    assert (get_value current1 (renamed input_path) = Ok v) as ->.
    { apply get_value_Ok. split; [|done].
      unfold targets_other, start_protocol. by rewrite Hlocal. }
    destruct v as [| | | |q]; try (apply Hcontinue; try done; intros name; by left).
    apply Hcontinue; try done. intros name. simpl.
    destruct (decide (property_name (renamed input_path) = name)) as [<-|Hne].
    + right. exists q, (path_replace_protocol q old_id new_id).
      by rewrite lookup_insert_eq.
    + left. by rewrite lookup_insert_ne.
Qed.

(** X11: when every required input whose rewritten path carries no
    protocol id names an attribute, [replace_protocol] raises nothing;
    it rewrites every required input path and every provided output path,
    and keeps the id and the class of the protocol.  Of the attributes, it
    only ever changes references, and only those named by an input whose
    rewritten path carries no protocol id: any other attribute, and any
    value that is not a reference, is what it was. *)
Theorem replace_protocol_spec (self : BaseProtocol) :
  (forall path, path ∈ required_inputs self -> protocol_ids (renamed path) = [] ->
     is_Some (attributes self !! property_name (renamed path))) ->
  exists self',
    replace_protocol path_replace_protocol self old_id new_id = (self', None) /\
    _id self' = _id self /\
    type self' = type self /\
    required_inputs self' = map renamed (required_inputs self) /\
    provided_outputs self' = map renamed (provided_outputs self) /\
    (forall name v, attributes self !! name = Some v ->
       (forall q, v <> VPath q) -> attributes self' !! name = Some v) /\
    (forall name,
       (forall path, path ∈ required_inputs self -> protocol_ids (renamed path) = [] ->
          property_name (renamed path) <> name) ->
       attributes self' !! name = attributes self !! name).
Proof.
  intros Hattrs.
  destruct (replace_protocol_inputs_spec (required_inputs self) [] self Hattrs)
    as (self1 & Hrun & Hid & Hty & Hout & Hreq & Hrel).
  unfold replace_protocol. rewrite Hrun.
  eexists. split; [reflexivity|]. simpl.
  split; [done|]. split; [done|]. split; [done|]. split; [by rewrite Hout|]. split.
  - intros name v Hv Hnotpath.
    destruct (Hrel name) as [->|(q & q' & Hq & _)]; [done|].
    rewrite Hv in Hq. injection Hq as ->. by destruct (Hnotpath q).
  - intros name Hnotnamed.
    destruct (Hrel name) as [->|(q & q' & _ & _ & path & Hin & Hlocal & Hname)]; [done|].
    by destruct (Hnotnamed path Hin Hlocal).
Qed.

End ReplaceProtocolProperties.

(** ** Protocols: schemas and output dictionaries *)

Section SchemaProperties.

Variable full_path : ProtocolPath -> string.
Variable from_string : string -> result ProtocolPath.

Lemma set_value_shape (self : BaseProtocol) (path : ProtocolPath) (value : Value) :
  same_shape (set_value self path value).1 self.
Proof.
  unfold set_value. destruct (targets_other self path); [done|].
  destruct (attributes self !! property_name path); [|done].
  by case_bool_decide.
Qed.



Lemma output_dictionary_loop_spec (self : BaseProtocol) (outputs : list ProtocolPath) :
  forall collected : gmap string Value,
  (forall path, path ∈ outputs -> is_ok (get_value self path) = true) ->
  exists dictionary,
    output_dictionary_loop full_path self outputs collected = Ok dictionary /\
    (forall key,
       dictionary !! key =
         match list_find (fun path => full_path path = key) (reverse outputs) with
         | Some (_, path) =>
             match get_value self path with Ok v => Some v | Raise _ => None end
         | None => collected !! key
         end).
Proof.
  induction outputs as [|output_path rest IH]; intros collected Hok; simpl.
  - by exists collected.
  - assert (is_ok (get_value self output_path) = true) as Hhead by (apply Hok; left).
    destruct (get_value self output_path) as [v|e] eqn:Hv; [|done].
    destruct (IH (<[full_path output_path := v]> collected))
      as (dictionary & Hrun & Hlookup); [intros path Hin; apply Hok; by right|].
    exists dictionary. split; [done|]. intros key. rewrite Hlookup, reverse_cons.
    destruct (list_find _ (reverse rest)) as [[i path]|] eqn:Hfind.
    + erewrite list_find_app_l by done. done.
    + rewrite list_find_app_r by done. simpl.
      case_decide as Hkey; simpl.
      * by rewrite Hkey, lookup_insert_eq, Hv.
      * by rewrite lookup_insert_ne.
Qed.

(** X13: when every provided output can be read, [_get_output_dictionary]
    returns a dictionary whose keys are exactly the full paths of the
    provided outputs, and which holds under the full path of each output
    the value of that output (full paths telling the outputs apart); when
    an output cannot be read, it raises. *)
Theorem get_output_dictionary_spec (self : BaseProtocol) :
  ((forall path, path ∈ provided_outputs self -> is_ok (get_value self path) = true) ->
   (forall p q, p ∈ provided_outputs self -> q ∈ provided_outputs self ->
      full_path p = full_path q -> p = q) ->
   exists dictionary,
     _get_output_dictionary full_path self = Ok dictionary /\
     (forall path, path ∈ provided_outputs self ->
        Ok <$> dictionary !! full_path path = Some (get_value self path)) /\
     (forall key, is_Some (dictionary !! key) ->
        exists path, path ∈ provided_outputs self /\ key = full_path path)) /\
  (forall path, path ∈ provided_outputs self -> is_ok (get_value self path) = false ->
     is_ok (_get_output_dictionary full_path self) = false).
Proof.
  split.
  - intros Hok Hinj.
    destruct (output_dictionary_loop_spec self (provided_outputs self) ∅ Hok)
      as (dictionary & Hrun & Hlookup).
    exists dictionary. split; [done|]. split.
    + intros path Hin. rewrite Hlookup.
      destruct (list_find _ (reverse (provided_outputs self))) as [[i found]|] eqn:Hfind.
      * apply list_find_Some in Hfind as (Hfound & Hkey & _).
        apply list_elem_of_lookup_2 in Hfound. rewrite elem_of_reverse in Hfound.
        rewrite (Hinj found path Hfound Hin Hkey).
        specialize (Hok path Hin). by destruct (get_value self path).
      * apply list_find_None in Hfind. rewrite Forall_forall in Hfind.
        destruct (Hfind path); [by apply elem_of_reverse|done].
    + intros key. rewrite Hlookup.
      destruct (list_find _ (reverse (provided_outputs self))) as [[i found]|] eqn:Hfind.
      * intros _. apply list_find_Some in Hfind as (Hfound & Hkey & _).
        apply list_elem_of_lookup_2 in Hfound. rewrite elem_of_reverse in Hfound. by exists found.
      * rewrite lookup_empty. by intros [? ?].
  - unfold _get_output_dictionary. generalize (∅ : gmap string Value).
    induction (provided_outputs self) as [|output_path rest IH];
      intros collected path Hin Hbad.
    + by apply elem_of_nil in Hin.
    + simpl. apply elem_of_cons in Hin as [->|Hin].
      * by destruct (get_value self output_path).
      * destruct (get_value self output_path); [by eapply IH|done].
Qed.

End SchemaProperties.




Section SchemaRoundTrip.

Variable full_path : ProtocolPath -> string.
Variable from_string : string -> result ProtocolPath.
Variable source : BaseProtocol.



Variable target : BaseProtocol.

Hypothesis same_id : _id target = _id source.
Hypothesis parse_full_path :
  forall path, path ∈ required_inputs source -> locally_scoped source path = true ->
    from_string (full_path path) = Ok path.
Hypothesis target_settable :
  forall path, path ∈ required_inputs source -> locally_scoped source path = true ->
    is_Some (attributes target !! property_name path) /\
    path ∉ provided_outputs target.


End SchemaRoundTrip.



(** ** Protocols: more on [can_merge] and [merge] *)

Lemma py_eq_sym (a b : Value) : py_eq a b = py_eq b a.
Proof.
  unfold py_eq. destruct (as_number a) as [x|], (as_number b) as [y|];
    apply bool_decide_ext; split; congruence.
Qed.

Lemma get_value_local (self : BaseProtocol) (path : ProtocolPath) :
  protocol_ids path = [] ->
  get_value self path =
    match attributes self !! property_name path with
    | Some v => Ok v
    | None => Raise (ValueError ("This protocol does not have contain a "
                                   +:+ property_name path +:+ " property."))
    end.
Proof. intros Hlocal. unfold get_value, targets_other, start_protocol. by rewrite Hlocal. Qed.

Lemma can_merge_inputs_sym (a b : BaseProtocol) (inputs : list ProtocolPath) :
  type a = type b ->
  (forall path, path ∈ inputs ->
     protocol_ids path = [] /\ path ∈ required_inputs a /\ path ∈ required_inputs b) ->
  can_merge_inputs a b inputs = can_merge_inputs b a inputs.
Proof.
  intros Htype. induction inputs as [|input_path rest IH]; intros Hinputs; [done|].
  destruct (Hinputs input_path) as (Hlocal & Hin_a & Hin_b); [left|].
  assert (can_merge_inputs a b rest = can_merge_inputs b a rest) as Hrest.
  { apply IH. intros path Hin. apply Hinputs. by right. }
  cbn [can_merge_inputs]. rewrite <- Htype.
  unfold targets_other, locally_scoped, start_protocol. rewrite Hlocal. simpl.
  destruct (class_getattr (type a) (property_name input_path)) as [d|]; [|done].
  destruct (merge_behavior d) as [[]|]; try done.
  rewrite !bool_decide_eq_true_2 by done. simpl.
  rewrite !get_value_local by done.
  destruct (attributes a !! property_name input_path) as [va|],
           (attributes b !! property_name input_path) as [vb|]; try done.
  rewrite (py_eq_sym vb va). by destruct (py_eq va vb).
Qed.

(** X15: between two protocols of the same class, whose required inputs
    are the ones [__init__] declares for it and which both allow merging,
    [can_merge] does not depend on which of the two is asked: it returns,
    or raises, the same either way. *)
Theorem can_merge_symmetric (a b : BaseProtocol) :
  type a = type b ->
  required_inputs a = declared_inputs (type a) ->
  required_inputs b = declared_inputs (type b) ->
  (exists allowed, attributes a !! "allow_merging" = Some allowed /\ truthy allowed = true) ->
  (exists allowed, attributes b !! "allow_merging" = Some allowed /\ truthy allowed = true) ->
  can_merge a b = can_merge b a.
Proof.
  intros Htype Ha Hb (va & Hva & Hta) (vb & Hvb & Htb).
  unfold can_merge, allow_merging, isinstance. rewrite Hva, Hvb, Hta, Htb, <- Htype. simpl.
  rewrite (bool_decide_eq_true_2 _ (get_bases_head (type a))). simpl.
  assert (required_inputs b = required_inputs a) as Hsame by (by rewrite Ha, Hb, Htype).
  rewrite Hsame. apply can_merge_inputs_sym; [done|].
  intros path Hin. split; [|by rewrite Hsame].
  rewrite Ha in Hin. by apply declared_inputs_local in Hin as [? _].
Qed.

Lemma can_merge_symmetric_witness :
  can_merge npt_a npt_b = can_merge npt_b npt_a /\
  can_merge npt_a npt_c = can_merge npt_c npt_a.
Proof.
  split.
  - apply (can_merge_symmetric npt_a npt_b eq_refl eq_refl eq_refl);
      exists (VBool true); split; reflexivity.
  - apply (can_merge_symmetric npt_a npt_c eq_refl eq_refl eq_refl);
      exists (VBool true); split; reflexivity.
Defined.

Lemma setattr_same (self : BaseProtocol) (name : string) (v : Value) :
  attributes self !! name = Some v -> setattr self name v = self.
Proof.
  intros Hv. destruct self as [i t attrs req out]. unfold setattr. simpl in *.
  by rewrite insert_id.
Qed.

Lemma merge_values_same (behaviour : MergeBehaviour) (v : Value) :
  behaviour <> ExactlyEqual -> comparable v v -> merge_values behaviour v v = Ok v.
Proof.
  unfold comparable, merge_values, py_min, py_max.
  destruct behaviour; [done| |]; intros _; by destruct (py_lt v v) as [[]|].
Qed.

(** X16: merging a protocol with itself changes nothing: when every
    required input gets through its iteration, [merge] returns the empty
    dictionary and leaves the protocol exactly as it was. *)
Theorem merge_with_itself (self : BaseProtocol) :
  (forall path, path ∈ required_inputs self -> mergeable_input self self path) ->
  merge self self = (self, Ok ∅).
Proof.
  intros Hinputs. unfold merge.
  assert (merge_inputs self self (required_inputs self) = (self, None)) as ->; [|done].
  revert Hinputs. induction (required_inputs self) as [|input_path rest IH];
    intros Hinputs; [done|].
  cbn [merge_inputs].
  assert (merge_input self self input_path = (self, None)) as ->.
  { unfold merge_input.
    destruct (locally_scoped self input_path) eqn:Hlocal; [|done]. simpl.
    destruct (Hinputs input_path) as [[d Hd] Hvalues]; [left|done|].
    unfold input_merge_behavior in Hvalues. rewrite Hd in *.
    destruct (merge_behavior d) as [behaviour|]; [|done].
    destruct (decide (behaviour = ExactlyEqual)) as [->|Hne]; [done|].
    destruct (Hvalues behaviour eq_refl Hne) as (Hout & a & b & Ha & Hb & Hcmp).
    assert (b = a) as -> by congruence.
    assert (set_value self input_path a = (self, None)) as Hset.
    { apply get_value_Ok in Ha as [Htarget Ha]. unfold set_value.
      rewrite Htarget, Ha, bool_decide_eq_false_2 by done.
      by rewrite setattr_same. }
    destruct behaviour; [done| |];
      by rewrite Ha, (merge_values_same _ a) by done. }
  apply IH. intros path Hin. apply Hinputs. by right.
Qed.

Lemma merge_with_itself_witness : merge npt_a npt_a = (npt_a, Ok ∅).
Proof.
  apply (merge_with_itself npt_a).
  intros path Hin. vm_compute in Hin.
  each_path Hin; intros Hlocal; (split; [eexists; reflexivity|]);
    intros behaviour Htag Hne; vm_compute in Htag;
    injection Htag as <-; try (by destruct Hne);
    (split; [apply (bool_decide_unpack _); vm_compute; exact I|]);
    do 2 eexists; (split; [reflexivity|]); split; reflexivity.
Defined.

Lemma merge_input_frame (other self : BaseProtocol) (path : ProtocolPath) :
  same_shape (merge_input other self path).1 self /\
  (forall name,
     input_merge_behavior self (local_path name) = Some ExactlyEqual \/
     input_merge_behavior self (local_path name) = None ->
     attributes (merge_input other self path).1 !! name = attributes self !! name).
Proof.
  unfold merge_input.
  destruct (locally_scoped self path); simpl; [|done].
  destruct (class_getattr (type self) (property_name path)) as [d|] eqn:Hd; [|done].
  destruct (merge_behavior d) as [behaviour|] eqn:Hmb; [|done].
  destruct (decide (behaviour = ExactlyEqual)) as [->|Hne]; [done|].
  assert (forall v,
            same_shape (set_value self path v).1 self /\
            (forall name,
               input_merge_behavior self (local_path name) = Some ExactlyEqual \/
               input_merge_behavior self (local_path name) = None ->
               attributes (set_value self path v).1 !! name = attributes self !! name))
    as Hset.
  { intros v. split; [apply set_value_shape|]. intros name Htag.
    unfold set_value. destruct (targets_other self path); [done|].
    destruct (attributes self !! property_name path); [|done].
    case_bool_decide; [done|]. simpl.
    rewrite lookup_insert_ne; [done|]. intros <-.
    unfold input_merge_behavior in Htag. simpl in Htag. rewrite Hd, Hmb in Htag.
    destruct Htag as [[= ->]|[=]]. done. }
  destruct behaviour; [done| |];
    destruct (get_value self path); try done;
    destruct (get_value other path); try done;
    destruct (merge_values _ _ _); try done; apply Hset.
Qed.

Lemma merge_inputs_frame (other : BaseProtocol) (inputs : list ProtocolPath) :
  forall self,
  same_shape (merge_inputs other self inputs).1 self /\
  (forall name,
     input_merge_behavior self (local_path name) = Some ExactlyEqual \/
     input_merge_behavior self (local_path name) = None ->
     attributes (merge_inputs other self inputs).1 !! name = attributes self !! name).
Proof.
  induction inputs as [|input_path rest IH]; intros self; simpl; [done|].
  destruct (merge_input_frame other self input_path) as [Hshape Hframe].
  destruct (merge_input other self input_path) as [self1 [e|]]; simpl in *; [done|].
  destruct (IH self1) as [Hshape' Hframe'].
  destruct Hshape as (Hid & Hty & Hreq & Hout), Hshape' as (Hid' & Hty' & Hreq' & Hout').
  split; [repeat split; congruence|].
  intros name Htag. rewrite Hframe'; [by apply Hframe|].
  unfold input_merge_behavior in *. by rewrite Hty.
Qed.

Lemma can_merge_inputs_ext (a' a other : BaseProtocol) (inputs : list ProtocolPath) :
  same_shape a' a ->
  (forall name, input_merge_behavior a (local_path name) = Some ExactlyEqual ->
     attributes a' !! name = attributes a !! name) ->
  can_merge_inputs a' other inputs = can_merge_inputs a other inputs.
Proof.
  intros (Hid & Hty & _ & _) Hattrs.
  induction inputs as [|input_path rest IH]; [done|].
  cbn [can_merge_inputs]. rewrite IH, Hty.
  assert (targets_other a' input_path = targets_other a input_path) as ->.
  { unfold targets_other. by rewrite Hid. }
  assert (locally_scoped a' input_path = locally_scoped a input_path) as ->.
  { unfold locally_scoped. by rewrite Hid. }
  destruct (targets_other a input_path) eqn:Htarget; [done|].
  destruct (locally_scoped a input_path); simpl; [|done].
  destruct (class_getattr (type a) (property_name input_path)) as [d|] eqn:Hd; [|done].
  destruct (merge_behavior d) as [[]|] eqn:Hmb; try done.
  assert (get_value a' input_path = get_value a input_path) as ->; [|done].
  unfold get_value, targets_other in *. rewrite Hid, Htarget, Hattrs; [done|].
  unfold input_merge_behavior. simpl. by rewrite Hd.
Qed.

(** X17: [merge] does not disturb what [can_merge] looks at.  Unless
    [allow_merging] itself is tagged [SmallestValue] or [GreatestValue],
    [can_merge] gives the same answer about [self] and [other] after
    [merge self other] as before it (also when [merge] raised on the way):
    a protocol that has absorbed one duplicate can absorb the next. *)
Theorem merge_keeps_can_merge (self other : BaseProtocol) :
  input_merge_behavior self (local_path "allow_merging") = Some ExactlyEqual \/
  input_merge_behavior self (local_path "allow_merging") = None ->
  can_merge (merge self other).1 other = can_merge self other.
Proof.
  intros Hallow.
  destruct (merge_inputs_frame other (required_inputs self) self) as [Hshape Hframe].
  assert ((merge self other).1 = (merge_inputs other self (required_inputs self)).1) as ->.
  { unfold merge. by destruct (merge_inputs other self (required_inputs self)) as [? [|]]. }
  set (self' := (merge_inputs other self (required_inputs self)).1) in *.
  pose proof Hshape as (Hid & Hty & Hreq & Hout).
  unfold can_merge, allow_merging, isinstance.
  rewrite (Hframe "allow_merging" Hallow), Hty, Hreq.
  destruct (attributes self !! "allow_merging") as [allowed|]; [|done].
  destruct (truthy allowed); simpl; [|done].
  destruct (bool_decide (type other ∈ get_bases (type self))); simpl; [|done].
  apply can_merge_inputs_ext; [done|].
  intros name Htag. apply Hframe. by left.
Qed.

Lemma merge_keeps_can_merge_witness :
  can_merge (merge npt_a npt_b).1 npt_b = Ok true /\
  can_merge (merge npt_a npt_c).1 npt_c = Ok false.
Proof.
  split.
  - rewrite (merge_keeps_can_merge npt_a npt_b); [reflexivity|]. left. reflexivity.
  - rewrite (merge_keeps_can_merge npt_a npt_c); [reflexivity|]. left. reflexivity.
Defined.

(** ** Protocols: what [set_uuid] does when the id is not tagged yet *)

Section SetUuidSpec.

Variable graph_append_uuid : string -> string -> string.
Variable path_append_uuid : ProtocolPath -> string -> ProtocolPath.
Variable value : string.

Let tagged (path : ProtocolPath) : ProtocolPath := path_append_uuid path value.

Lemma set_uuid_inputs_spec (todo : list ProtocolPath) :
  forall (done : list ProtocolPath) (current : BaseProtocol),
  (forall path, path ∈ todo ->
     targets_other current (tagged path) = false /\
     is_Some (attributes current !! property_name (tagged path))) ->
  exists current',
    set_uuid_inputs path_append_uuid current done todo value = (current', None) /\
    _id current' = _id current /\
    type current' = type current /\
    provided_outputs current' = provided_outputs current /\
    required_inputs current' = done ++ map tagged todo /\
    (forall name,
       attributes current' !! name = attributes current !! name \/
       (exists q q',
          attributes current !! name = Some (VPath q) /\
          attributes current' !! name = Some (VPath q'))).
Proof.
  induction todo as [|input_path rest IH]; intros done current Hreadable.
  { exists (with_required_inputs current done). simpl. rewrite app_nil_r.
    do 5 (split; [done|]). intros name. by left. }
  cbn [set_uuid_inputs]. fold (tagged input_path).
  set (current1 := with_required_inputs current (done ++ tagged input_path :: rest)).
  destruct (Hreadable input_path) as [Htarget [v Hv]]; [left|].
  assert (get_value current1 (tagged input_path) = Ok v) as ->
    by (by apply get_value_Ok).
  assert (forall (current2 : BaseProtocol),
            _id current2 = _id current -> type current2 = type current ->
            provided_outputs current2 = provided_outputs current ->
            (forall name,
               attributes current2 !! name = attributes current !! name \/
               (exists q q', attributes current !! name = Some (VPath q) /\
                  attributes current2 !! name = Some (VPath q'))) ->
            exists current',
              set_uuid_inputs path_append_uuid current2
                (done ++ [tagged input_path]) rest value = (current', None) /\
              _id current' = _id current /\
              type current' = type current /\
              provided_outputs current' = provided_outputs current /\
              required_inputs current' = done ++ map tagged (input_path :: rest) /\
              (forall name,
                 attributes current' !! name = attributes current !! name \/
                 (exists q q',
                    attributes current !! name = Some (VPath q) /\
                    attributes current' !! name = Some (VPath q')))) as Hcontinue.
  { intros current2 Hid Hty Hout Hrel.
    destruct (IH (done ++ [tagged input_path]) current2)
      as (current' & Hrun & Hid' & Hty' & Hout' & Hreq' & Hrel').
    { intros path Hin. destruct (Hreadable path) as [Ht [u Hu]]; [by right|].
      split; [unfold targets_other in *; by rewrite Hid|].
      destruct (Hrel (property_name (tagged path))) as [->|(q & q' & _ & ->)];
        by eauto. }
    exists current'. split; [done|]. split; [congruence|]. split; [congruence|].
    split; [congruence|]. split; [by rewrite Hreq', <- app_assoc|].
    intros name.
    destruct (Hrel' name) as [Hsame|(q & q' & Hq & Hq')];
      destruct (Hrel name) as [Hsame2|(p & p' & Hp & Hp')].
    - left. congruence.
    - right. exists p, p'. split; [done|congruence].
    - right. exists q, q'. split; [congruence|done].
    - right. by exists p, q'. }
  destruct v as [| | | |q]; try (apply Hcontinue; try done; intros name; by left).
  apply Hcontinue; try done. intros name. simpl.
  destruct (decide (property_name (tagged input_path) = name)) as [<-|Hne].
  - right. exists q, (path_append_uuid q value). by rewrite lookup_insert_eq.
  - left. by rewrite lookup_insert_ne.
Qed.

(** X18: on a protocol whose id does not contain the tag yet, [set_uuid]
    first gives the protocol the id that [graph.append_uuid] builds, and
    the protocol keeps that id even if the call raises later on.  When
    every tagged required input path is local or starts at the new id, and
    names an attribute, the call raises nothing: every required input path
    and every provided output path is tagged, the class is kept, every
    value that is not a reference is what it was, and a reference stays a
    reference. *)
Theorem set_uuid_spec (self : BaseProtocol) :
  ~ (0 <= find (_id self) value)%Z ->
  let new_id := graph_append_uuid (_id self) value in
  _id (set_uuid graph_append_uuid path_append_uuid self value).1 = new_id /\
  ((forall path, path ∈ required_inputs self ->
      (start_protocol (tagged path) = None \/ start_protocol (tagged path) = Some new_id) /\
      is_Some (attributes self !! property_name (tagged path))) ->
   exists self',
     set_uuid graph_append_uuid path_append_uuid self value = (self', None) /\
     type self' = type self /\
     required_inputs self' = map tagged (required_inputs self) /\
     provided_outputs self' = map tagged (provided_outputs self) /\
     (forall name v, attributes self !! name = Some v ->
        (forall q, v <> VPath q) -> attributes self' !! name = Some v) /\
     (forall name q, attributes self !! name = Some (VPath q) ->
        exists q', attributes self' !! name = Some (VPath q')) /\
     (forall name, attributes self !! name = None -> attributes self' !! name = None)).
Proof.
  intros Hfresh new_id. split.
  { rewrite set_uuid_id. by rewrite decide_False. }
  intros Hreadable.
  destruct (set_uuid_inputs_spec (required_inputs self) [] (with_id self new_id))
    as (self1 & Hrun & Hid & Hty & Hout & Hreq & Hrel).
  { intros path Hin. destruct (Hreadable path Hin) as [Hstart Hattr].
    split; [|done]. unfold targets_other. simpl.
    destruct Hstart as [->| ->]; [done|]. by rewrite bool_decide_eq_true_2. }
  unfold set_uuid. rewrite decide_False by done.
  cbn [required_inputs with_id]. fold new_id. rewrite Hrun.
  eexists. split; [reflexivity|]. simpl in *.
  split; [done|]. split; [done|]. split; [by rewrite Hout|]. split; [|split].
  - intros name v Hv Hnotpath.
    destruct (Hrel name) as [->|(q & q' & Hq & _)]; [done|].
    rewrite Hv in Hq. injection Hq as ->. by destruct (Hnotpath q).
  - intros name q Hq.
    destruct (Hrel name) as [->|(p & p' & _ & -> )]; by eauto.
  - intros name Hnone.
    destruct (Hrel name) as [->|(q & q' & Hq & _)]; [done|]. congruence.
Qed.

End SetUuidSpec.

(** ** Classes: inherited inputs and outputs *)

Lemma find_types_inherited (cls base : PyClass) (decorator_type name : string) :
  base ∈ get_bases cls ->
  name ∈ find_types_with_decorator base decorator_type ->
  name ∈ find_types_with_decorator cls decorator_type.
Proof.
  unfold find_types_with_decorator.
  induction cls as [|n d parent IH]; simpl.
  - intros Hin. by apply list_elem_of_singleton in Hin as ->.
  - intros Hin Hname. apply elem_of_cons in Hin as [->|Hin]; [done|].
    apply elem_of_app. right. by apply IH.
Qed.

(** X19: a class inherits the inputs of all its bases: whenever [self] is
    an instance of the class of [other], every input path declared for the
    class of [other] is declared for the class of [self] as well, in
    particular [allow_merging] once a base declares it. *)
Theorem declared_inputs_inherited (self other : BaseProtocol) (path : ProtocolPath) :
  isinstance self (type other) = true ->
  path ∈ declared_inputs (type other) ->
  path ∈ declared_inputs (type self).
Proof.
  unfold isinstance, declared_inputs. intros Hinstance Hin.
  apply bool_decide_eq_true in Hinstance.
  apply list_elem_of_fmap in Hin as (name & -> & Hname).
  apply list_elem_of_fmap. exists name. split; [done|].
  by eapply find_types_inherited.
Qed.

Lemma declared_inputs_inherited_witness :
  local_path "steps" ∈ declared_inputs (type npt_restartable) /\
  local_path "allow_merging" ∈ declared_inputs (type npt_restartable).
Proof.
  split.
  - apply (declared_inputs_inherited npt_restartable npt_a (local_path "steps"));
      [reflexivity|]. apply (bool_decide_unpack _). vm_compute. exact I.
  - apply (declared_inputs_inherited npt_restartable npt_a (local_path "allow_merging"));
      [reflexivity|]. apply (bool_decide_unpack _). vm_compute. exact I.
Defined.

(** ** Aggregation: no property is invented *)

Lemma filed_insert (d : gmap string (list PhysicalProperty)) (k : string)
    (l : list PhysicalProperty) :
  (filed (<[k := l]> d) + length (default [] (d !! k)))%nat = (filed d + length l)%nat.
Proof.
  unfold filed.
  assert (forall (m : gmap string (list PhysicalProperty)) x, m !! k = None ->
            map_fold (fun _ properties n => (length properties + n)%nat) 0%nat (<[k := x]> m)
            = (length x
               + map_fold (fun _ properties n => (length properties + n)%nat) 0%nat m)%nat)
    as Hfresh.
  { intros m x Hm.
    apply (map_fold_insert_L
             (fun (_ : string) (properties : list PhysicalProperty) (n : nat) =>
                (length properties + n)%nat) 0%nat k x m); [|done].
    intros. lia. }
  destruct (d !! k) as [old|] eqn:Hk; simpl.
  - pose proof (Hfresh (delete k d) old (lookup_delete_eq d k)) as Hold.
    rewrite (insert_delete_id d k old Hk) in Hold.
    pose proof (Hfresh (delete k d) l (lookup_delete_eq d k)) as Hnew.
    rewrite insert_delete_eq in Hnew. lia.
  - rewrite Hfresh by done. lia.
Qed.

Lemma filed_dict_append (d : gmap string (list PhysicalProperty)) (k : string)
    (v : PhysicalProperty) :
  filed (dict_append d k v) = S (filed d).
Proof.
  unfold dict_append.
  pose proof (filed_insert d k (default [] (d !! k) ++ [v])) as Hinsert.
  rewrite length_app in Hinsert. simpl in Hinsert. lia.
Qed.

Lemma route_result_accounted (w : World) (r : CalculationLayerResult) :
  (accounted (request (route_result w r).1) <= accounted (request w))%nat.
Proof.
  unfold route_result.
  pose proof (remove_matches_filter r (queued_properties (request w)) []) as Hrm.
  simpl in Hrm. rewrite Hrm by constructor.
  pose proof (length_filter_split r (queued_properties (request w))) as Hlen.
  unfold accounted.
  repeat case_decide; simpl; try lia.
  destruct (calculated_property r) as [c|]; simpl; [|lia].
  destruct (substance c) as [s|]; simpl; [|lia].
  destruct (exception r); simpl; rewrite filed_dict_append; lia.
Qed.

Lemma process_output_accounted (w : World) (o : ReturnedOutput) :
  (accounted (request (process_output w o).1) <= accounted (request w))%nat.
Proof.
  destruct o as [|r|repr]; simpl; try done.
  pose proof (record_and_store_frame w r) as (_ & Hq & Hest & Hun & _).
  assert (accounted (request (record_and_store w r).1) = accounted (request w)) as Hfirst.
  { unfold accounted. by rewrite Hq, Hest, Hun. }
  destruct (record_and_store w r) as [w1 [e|]]; simpl in *; [lia|].
  rewrite <- Hfirst. apply route_result_accounted.
Qed.

Lemma process_outputs_accounted (results : list ReturnedOutput) (w : World) :
  (accounted (request (process_outputs w results).1) <= accounted (request w))%nat.
Proof.
  revert w. induction results as [|o results IH]; intros w; simpl; [done|].
  pose proof (process_output_accounted w o) as Hstep.
  destruct (process_output w o) as [w1 [e|]]; simpl in *; [done|].
  etransitivity; [apply IH|done].
Qed.

(** X20: the routine invents no property: the properties that the request
    holds in all (queued, estimated and unsuccessful together) never
    become more, whatever the future yields; each property that is filed
    has been paid for by one taken from the queue. *)
Theorem no_property_is_invented (format_exception : PyExn -> string)
    (results_future : Future) (w : World) :
  (accounted (request (_process_results format_exception results_future w))
   <= accounted (request w))%nat.
Proof.
  unfold _process_results.
  assert (accounted (request (try_body results_future w).1) <= accounted (request w))%nat
    as Hbody.
  { unfold try_body. destruct (future_result results_future) as [results|e]; [|done].
    destruct (future_release results_future); [done|].
    apply process_outputs_accounted. }
  destruct (try_body results_future w) as [w1 [e|]]; done.
Qed.

(** ** The further properties on concrete objects *)

Import MoreExamples.

Lemma dependencies_spec_witness :
  exists deps,
    dependencies npt_production = Ok deps /\ NoDup deps /\
    (forall d, d ∈ deps <->
       exists path, path ∈ required_inputs npt_production /\
         get_value npt_production path = Ok (VPath d)).
Proof.
  apply (proj1 (dependencies_spec npt_production)).
  intros path Hin. vm_compute in Hin. each_path Hin; reflexivity.
Defined.

Lemma replace_protocol_spec_witness :
  exists self',
    replace_protocol rename_in_path npt_production "npt_equilibration" "npt_merged"
      = (self', None) /\
    _id self' = "npt_production" /\
    attributes self' !! "steps" = Some (VInt 20).
Proof.
  destruct (replace_protocol_spec rename_in_path "npt_equilibration" "npt_merged"
              npt_production) as (self' & Hrun & Hid & _ & _ & _ & Hvalues & _).
  - intros path Hin _. vm_compute in Hin. each_path Hin; eexists; reflexivity.
  - exists self'. split; [exact Hrun|]. split; [exact Hid|].
    apply (Hvalues "steps" (VInt 20)); [reflexivity|discriminate].
Defined.


Lemma get_output_dictionary_spec_witness :
  exists dictionary,
    _get_output_dictionary show_path npt_production = Ok dictionary /\
    (forall path, path ∈ provided_outputs npt_production ->
       Ok <$> dictionary !! show_path path = Some (get_value npt_production path)) /\
    (forall key, is_Some (dictionary !! key) ->
       exists path, path ∈ provided_outputs npt_production /\ key = show_path path).
Proof.
  apply (proj1 (get_output_dictionary_spec show_path npt_production)).
  - intros path Hin. vm_compute in Hin. each_path Hin; reflexivity.
  - intros p q Hp Hq. vm_compute in Hp, Hq.
    each_path Hp; each_path Hq; intros Heq; first [reflexivity | discriminate Heq].
Defined.


Lemma set_uuid_spec_witness :
  _id (set_uuid tag_id tag_path npt_production "uuid-1").1 = "uuid-1|npt_production" /\
  (exists self',
     set_uuid tag_id tag_path npt_production "uuid-1" = (self', None) /\
     attributes self' !! "steps" = Some (VInt 20) /\
     (exists q', attributes self' !! "input_coordinate_file" = Some (VPath q'))).
Proof.
  destruct (set_uuid_spec tag_id tag_path "uuid-1" npt_production) as [Hid Hspec].
  - vm_compute. intros Hle. apply Hle. reflexivity.
  - split; [exact Hid|].
    destruct Hspec as (self' & Hrun & _ & _ & _ & Hvalues & Hrefs & _).
    + intros path Hin. vm_compute in Hin.
      each_path Hin; (split; [left; reflexivity|eexists; reflexivity]).
    + exists self'. split; [exact Hrun|]. split.
      * apply (Hvalues "steps" (VInt 20)); [reflexivity|discriminate].
      * apply (Hrefs "input_coordinate_file" equilibrated_coordinates). reflexivity.
Defined.
